(** * bulb: signals, subscriptions and combinators

    A model of [src/signal.js] and of the combinator modules
    [src/combinator/delay.js] (delay, fold, scan, stateMachine) and
    [src/combinator/filter.js] (filter, dedupe, dedupeWith), as the engine
    of [src/signal.js] runs them: [subscribe] calls a mount function with
    three functions, and the mount functions of the combinator modules take
    the first of them for an object [emit].

    JavaScript objects live in a store: signals, subscriptions, the mutable
    variables captured by closures, and the pending timers are addressed by
    their index.  Closures are represented by the code they run together
    with the addresses they capture.  Every operation is a computation in a
    state monad that can also stop with a JavaScript [TypeError]. *)

From stdpp Require Import base list strings.
From Stdlib Require Import ZArith Lia.

Open Scope Z_scope.
Open Scope nat_scope.

(** ** Values *)

(** The values carried by signals: [undefined], [null], numbers, strings
    and arrays (zip emits arrays). *)
#[warnings="-register-all"] Inductive value : Type :=
| VUndef
| VNull
| VNum (z : Z)
| VStr (s : string)
| VArr (elems : list value).

(** [if (a)]: the values that JavaScript takes for true. *)
Definition truthy (a : value) : bool :=
  match a with
  | VUndef | VNull => false
  | VNum z => negb (Z.eqb z 0)
  | VStr s => negb (String.eqb s "")
  | VArr _ => true
  end.

(** [F.array(n)] of fkit: an array of [n] undefined entries. *)
Definition array (n : nat) : list value := replicate n VUndef.

(** [as[index] = a] on a JavaScript array: inside the array the entry is
    replaced, past its end the array grows up to [index]. *)
Definition array_set (l : list value) (index : nat) (a : value) : list value :=
  if decide (index < length l) then <[index := a]> l
  else l ++ replicate (index - length l) VUndef ++ [a].

(** ** Closures *)

(** Addresses of signals, subscriptions and closure variables. *)
Abbreviation sigid := nat (only parsing).
Abbreviation subid := nat (only parsing).
Abbreviation cellid := nat (only parsing).

(** The three callbacks of an observer. *)
Inductive channel : Type := KNext | KError | KComplete.

(** One call of a handler: the channel and the value.  A mount function
    of the client is given by the handlers it calls, and a transform
    function of [stateMachine] by the calls [emit.next(v)], [emit.error(v)]
    and [emit.complete()] it makes on its third argument, in order. *)
Definition emission : Type := channel * value.

(** Functions of the program.  [CbUser tag] is a callback supplied by the
    client; calling it is recorded in the trace.  The others are the
    closures the library creates.  Those of signal.js name the signal [d]
    whose broadcast handlers [next], [error], [complete] their mount
    function was given; those of the combinator modules capture the one
    parameter [emit] of their mount function, whatever it holds. *)
Inductive callback : Type :=
| CbUser (tag : nat)
  (* nextHandler, errorHandler, completeHandler of signal [s] (signal.js:44-60) *)
| CbHandler (s : sigid) (k : channel)
  (* a => setTimeout(() => next(a), n)  (signal.js:215) *)
| CbDelayNextP (n : nat) (d : sigid)
  (* () => setTimeout(() => complete(), n)  (signal.js:217) *)
| CbDelayComplete (n : nat) (d : sigid)
  (* F.compose(next, f)  (signal.js:244) *)
| CbMapNext (f : value -> value) (d : sigid)
  (* a => { if (p(a)) { next(a) } }  (signal.js:257-259) *)
| CbFilterNext (p : value -> bool) (d : sigid)
  (* b => { a = f(a, b) }  (signal.js:275-278, delay.js:56) *)
| CbFoldNext (f : value -> value -> value) (a : cellid)
  (* () => { next(a); complete() }  (signal.js:280-283) *)
| CbFoldComplete (a : cellid) (d : sigid)
  (* b => { a = f(a, b); next(a) }  (signal.js:301-304) *)
| CbScanNext (f : value -> value -> value) (a : cellid) (d : sigid)
  (* onComplete of merge  (signal.js:319-321) *)
| CbMergeComplete (count : cellid) (len : nat) (d : sigid)
  (* a => onNext(a, index) of zip  (signal.js:339-348, 354) *)
| CbZipNext (as_ : cellid) (index : nat) (len : nat) (d : sigid)
  (* onComplete of zip  (signal.js:350-352) *)
| CbZipComplete (count : cellid) (len : nat) (d : sigid)
  (* a => emit.next(a), a => emit.error(a), () => emit.complete() *)
| CbEmit (emit : callback) (k : channel)
  (* a => { id = setTimeout(() => emit.next(a), n) }  (delay.js:22-24) *)
| CbDelayNext (n : nat) (id : cellid) (emit : callback)
  (* () => { setTimeout(() => emit.complete(), n) }  (delay.js:26-28) *)
| CbDelayCompleteC (n : nat) (emit : callback)
  (* () => { emit.next(a); emit.complete() }  (delay.js:58-62) *)
| CbFoldCompleteC (a : cellid) (emit : callback)
  (* b => { a = f(a, b); emit.next(a) }  (delay.js:84-87) *)
| CbScanNextC (f : value -> value -> value) (a : cellid) (emit : callback)
  (* b => { a = f(a, b, emit) }  (delay.js:114-117) *)
| CbStateMachineNext (f : value -> value -> list emission * value) (a : cellid)
    (emit : callback)
  (* a => { if (p(a)) { emit.next(a) } }  (filter.js:21) *)
| CbFilterNextC (p : value -> bool) (emit : callback).

(** The three handlers that [subscribe] hands to the mount function. *)
Abbreviation nextHandler s := (CbHandler s KNext).
Abbreviation errorHandler s := (CbHandler s KError).
Abbreviation completeHandler s := (CbHandler s KComplete).

(** An observer object; a missing (or non callable) property is [None]. *)
Record callbacks : Type := Observer {
  next : option callback;
  error : option callback;
  complete : option callback
}.

Definition member (o : callbacks) (k : channel) : option callback :=
  match k with
  | KNext => next o
  | KError => error o
  | KComplete => complete o
  end.

(** [f.next], [f.error] and [f.complete] for a function [f]: the program
    gives no property to any of its functions, the lookup is
    [undefined]. *)
Definition property (f : callback) (k : channel) : option callback := None.

(** [{...f}] for a function [f]: a function has no own enumerable
    property, so the spread adds nothing to the object literal. *)
Definition spread (f : callback) : callbacks := Observer None None None.

(** The arguments [observer, ...args] of [subscribe], by [typeof observer]. *)
Inductive arguments : Type :=
| AFunction (f : callback) (args0 args1 : option callback)
| AObject (o : callbacks)
| ANull                       (* typeof null === 'object' *)
| AOther.                     (* undefined, boolean, number, string *)

(** Functions returned by a mount function. *)
Inductive unmountfn : Type :=
| UUser                          (* the client's own teardown *)
| UClearTimeout (id : cellid).   (* () => clearTimeout(id)  (delay.js:32) *)

(** What a mount function returns. *)
Inductive mountret : Type :=
| RUndefined
| RFunction (u : unmountfn)
| RSubscription (s : subid).

(** Mount functions.  [MUser script unmount] stands for a mount function
    written by the client: it calls the handlers it is given as listed in
    [script] before it returns, and returns a function when [unmount] is
    set.  The others are the arrow functions that the combinators pass to
    [new Signal]. *)
Inductive mountfn : Type :=
| MUser (script : list emission) (unmount : bool)
| MDelayP (n : nat) (this : sigid)                                  (* signal.js:213-219 *)
| MMap (f : value -> value) (this : sigid)                          (* signal.js:243-245 *)
| MFilter (p : value -> bool) (this : sigid)                        (* signal.js:256-260 *)
| MFold (f : value -> value -> value) (a : cellid) (this : sigid)   (* signal.js:273-285 *)
| MScan (f : value -> value -> value) (a : cellid) (this : sigid)   (* signal.js:297-305 *)
| MMerge (this : sigid) (ss : list sigid)                           (* signal.js:316-324 *)
| MZip (this : sigid) (ss : list sigid)                             (* signal.js:335-355 *)
| MDelayC (n : nat) (id : cellid) (s : sigid)                       (* delay.js:21-33 *)
| MFoldC (f : value -> value -> value) (a : cellid) (s : sigid)     (* delay.js:54-65 *)
| MScanC (f : value -> value -> value) (a : cellid) (s : sigid)     (* delay.js:79-90 *)
| MStateMachineC (f : value -> value -> list emission * value)
    (a : cellid) (s : sigid)                                         (* delay.js:113-120 *)
| MFilterC (p : value -> bool) (s : sigid).                         (* filter.js:20-23 *)

(** ** The store *)

(** A signal object.  [mounted] and [unmounted] are not fields of the
    JavaScript object: they count the calls of [_mount] and of [_unmount]. *)
Record signal : Type := Signal {
  _mount : mountfn;
  _unmount : mountret;
  _subscriptions : list subid;
  mounted : nat;
  unmounted : nat
}.

(** A subscription object: its observer ([None] is [null]), the signal
    captured by its disposer, and the inert mark. *)
Record subscription : Type := Subscription {
  observer : option callbacks;
  owner : sigid;
  closed : bool
}.

(** A pending [setTimeout]: [() => action(payload)] runs at time [due]. *)
Record timer : Type := Timer {
  tid : nat;
  due : nat;
  action : callback;
  payload : value
}.

Record state : Type := State {
  signals : list signal;
  subscriptions : list subscription;
  cells : list value;
  timers : list timer;
  next_timer : nat;
  clock : nat;
  trace : list (nat * value)
}.

Definition initial : state := State [] [] [] [] 1 0 [].

Definition set_signals (f : list signal -> list signal) (st : state) : state :=
  State (f (signals st)) (subscriptions st) (cells st) (timers st)
        (next_timer st) (clock st) (trace st).
Definition set_subscriptions (f : list subscription -> list subscription) (st : state) : state :=
  State (signals st) (f (subscriptions st)) (cells st) (timers st)
        (next_timer st) (clock st) (trace st).
Definition set_cells (f : list value -> list value) (st : state) : state :=
  State (signals st) (subscriptions st) (f (cells st)) (timers st)
        (next_timer st) (clock st) (trace st).
Definition set_timers (f : list timer -> list timer) (st : state) : state :=
  State (signals st) (subscriptions st) (cells st) (f (timers st))
        (next_timer st) (clock st) (trace st).
Definition set_next_timer (n : nat) (st : state) : state :=
  State (signals st) (subscriptions st) (cells st) (timers st)
        n (clock st) (trace st).
Definition set_clock (n : nat) (st : state) : state :=
  State (signals st) (subscriptions st) (cells st) (timers st)
        (next_timer st) n (trace st).
Definition set_trace (f : list (nat * value) -> list (nat * value)) (st : state) : state :=
  State (signals st) (subscriptions st) (cells st) (timers st)
        (next_timer st) (clock st) (f (trace st)).

(** ** The monad *)

(** A computation stops early with a [TypeError] (the only exception this
    code can raise by itself), when the model runs out of fuel, or when it
    follows an address that is not in the store. *)
Inductive stop : Type := TypeError | OutOfFuel | Stuck.

Inductive outcome (A : Type) : Type :=
| Ok (a : A)
| Stop (e : stop).
Arguments Ok {A} a.
Arguments Stop {A} e.

Definition M (A : Type) : Type := state -> outcome A * state.

Definition ret {A} (a : A) : M A := fun st => (Ok a, st).
Definition bind {A B} (m : M A) (k : A -> M B) : M B :=
  fun st => match m st with
            | (Ok a, st') => k a st'
            | (Stop e, st') => (Stop e, st')
            end.
Definition raise {A} (e : stop) : M A := fun st => (Stop e, st).
Definition gets {A} (f : state -> A) : M A := fun st => (Ok (f st), st).
Definition modify (f : state -> state) : M unit := fun st => (Ok tt, f st).
Definition lift {A} (o : option A) : M A :=
  match o with Some a => ret a | None => raise Stuck end.

Notation "x <- m ;; k" := (bind m (fun x => k))
  (at level 100, m at next level, right associativity).
Notation "m ;;; k" := (bind m (fun _ => k))
  (at level 100, right associativity).

Fixpoint for_each {A} (l : list A) (body : A -> M unit) : M unit :=
  match l with
  | [] => ret tt
  | x :: l' => body x ;;; for_each l' body
  end.

(** ** Store access *)

Definition get_signal (s : sigid) : M signal :=
  l <- gets signals ;; lift (l !! s).

Definition update_signal (s : sigid) (f : signal -> signal) : M unit :=
  modify (set_signals (alter f s)).

Definition get_subscription (id : subid) : M subscription :=
  l <- gets subscriptions ;; lift (l !! id).

Definition read (c : cellid) : M value :=
  l <- gets cells ;; lift (l !! c).

Definition write (c : cellid) (v : value) : M unit :=
  modify (set_cells (<[c := v]>)).

(** A [let] that a closure captures. *)
Definition new_cell (v : value) : M cellid :=
  c <- gets (fun st => length (cells st)) ;;
  modify (set_cells (fun l => l ++ [v])) ;;;
  ret c.

Definition log (tag : nat) (v : value) : M unit :=
  modify (set_trace (fun t => t ++ [(tag, v)])).

(** [setTimeout(() => action(payload), n)]: returns the timer id. *)
Definition setTimeout (action : callback) (payload : value) (n : nat) : M nat :=
  id <- gets next_timer ;;
  now <- gets clock ;;
  modify (set_timers (fun l => l ++ [Timer id (now + n) action payload])) ;;;
  modify (set_next_timer (S id)) ;;;
  ret id.

(** [clearTimeout(id)]: anything that is not the id of a pending timer is
    ignored. *)
Definition clearTimeout (id : value) : M unit :=
  match id with
  | VNum z =>
      modify (set_timers (filter (fun t => Z.of_nat (tid t) ≠ z)))
  | _ => ret tt
  end.

(** Fields of a signal, with a default for an address that is not in the
    store. *)
Definition registry (st : state) (s : sigid) : list subid :=
  match signals st !! s with Some sg => _subscriptions sg | None => [] end.
Definition mounts (st : state) (s : sigid) : nat :=
  match signals st !! s with Some sg => mounted sg | None => 0 end.
Definition unmounts (st : state) (s : sigid) : nat :=
  match signals st !! s with Some sg => unmounted sg | None => 0 end.
Definition unmount_hook (st : state) (s : sigid) : mountret :=
  match signals st !! s with Some sg => _unmount sg | None => RUndefined end.

Definition with_subscriptions (f : list subid -> list subid) (sg : signal) : signal :=
  Signal (_mount sg) (_unmount sg) (f (_subscriptions sg)) (mounted sg) (unmounted sg).
Definition with_unmount (r : mountret) (sg : signal) : signal :=
  Signal (_mount sg) r (_subscriptions sg) (mounted sg) (unmounted sg).
Definition count_mount (sg : signal) : signal :=
  Signal (_mount sg) (_unmount sg) (_subscriptions sg) (S (mounted sg)) (unmounted sg).
Definition count_unmount (sg : signal) : signal :=
  Signal (_mount sg) (_unmount sg) (_subscriptions sg) (mounted sg) (S (unmounted sg)).

(** ** Calling closures *)

(** [s.observer.next(value)] and its siblings: reading a property of
    [null] and calling [undefined] both raise a [TypeError]. *)
Definition method (o : option callbacks) (k : channel) : M callback :=
  match o with
  | None => raise TypeError
  | Some o => match member o k with
              | Some f => ret f
              | None => raise TypeError
              end
  end.

(** The argument a broadcast handler passes on: [completeHandler] calls
    [s.observer.complete()] without argument. *)
Definition handler_argument (k : channel) (v : value) : value :=
  match k with KComplete => VUndef | _ => v end.

(** [if (++count > ss.length) { complete() }], shared by merge and zip. *)
Definition onComplete (invoke : callback -> value -> M unit)
    (count : cellid) (len : nat) (d : sigid) : M unit :=
  c <- read count ;;
  match c with
  | VNum z =>
      write count (VNum (z + 1)) ;;;
      if decide (Z.of_nat len < z + 1)%Z
      then invoke (completeHandler d) VUndef
      else ret tt
  | _ => raise Stuck
  end.

(** [onNext] of zip (signal.js:339-348). *)
Definition onNext (invoke : callback -> value -> M unit)
    (as_ : cellid) (len : nat) (d : sigid) (a : value) (index : nat) : M unit :=
  cur <- read as_ ;;
  (* if (!as) { as = F.array(ss.length) } *)
  buf <- match cur with
         | VArr l => ret l
         | VNull => write as_ (VArr (array len)) ;;; ret (array len)
         | _ => raise Stuck
         end ;;
  (* as[index] = a *)
  let buf' := array_set buf index a in
  write as_ (VArr buf') ;;;
  (* if (as.length > ss.length) { next(as); as = null } *)
  if decide (len < length buf')
  then invoke (nextHandler d) (VArr buf') ;;; write as_ VNull
  else ret tt.

(** [s.observer.next(value)], [s.observer.error(value)] and
    [s.observer.complete()] for the subscription [s]. *)
Definition notify (invoke : callback -> value -> M unit)
    (k : channel) (v : value) (s : subid) : M unit :=
  sub <- get_subscription s ;;
  f <- method (observer sub) k ;;
  invoke f (handler_argument k v).

(** Calling a function value with one argument.  A broadcast handler
    walks the registry of its signal in insertion order, as the iteration
    of a JavaScript [Set] does; no closure of this model subscribes or
    unsubscribes, so the registry is the same throughout the walk. *)
Fixpoint call (fuel : nat) (cb : callback) (v : value) {struct fuel} : M unit :=
  match fuel with
  | 0 => raise OutOfFuel
  | S fuel =>
      match cb with
      | CbUser tag => log tag v
      | CbHandler s k =>
          sg <- get_signal s ;;
          for_each (_subscriptions sg) (notify (call fuel) k v)
      | CbDelayNextP n d =>
          setTimeout (nextHandler d) v n ;;; ret tt
      | CbDelayComplete n d =>
          setTimeout (completeHandler d) VUndef n ;;; ret tt
      | CbMapNext f d => call fuel (nextHandler d) (f v)
      | CbFilterNext p d =>
          if p v then call fuel (nextHandler d) v else ret tt
      | CbFoldNext f a =>
          acc <- read a ;; write a (f acc v)
      | CbFoldComplete a d =>
          acc <- read a ;;
          call fuel (nextHandler d) acc ;;;
          call fuel (completeHandler d) VUndef
      | CbScanNext f a d =>
          acc <- read a ;;
          write a (f acc v) ;;;
          call fuel (nextHandler d) (f acc v)
      | CbMergeComplete count len d => onComplete (call fuel) count len d
      | CbZipNext as_ index len d => onNext (call fuel) as_ len d v index
      | CbZipComplete count len d => onComplete (call fuel) count len d
      | CbEmit emit k =>
          (* [emit.next] and its siblings are looked up first; calling
             [undefined] raises a TypeError *)
          match property emit k with
          | Some f => call fuel f v
          | None => raise TypeError
          end
      | CbDelayNext n id emit =>
          t <- setTimeout (CbEmit emit KNext) v n ;;
          write id (VNum (Z.of_nat t))
      | CbDelayCompleteC n emit =>
          setTimeout (CbEmit emit KComplete) VUndef n ;;; ret tt
      | CbFoldCompleteC a emit =>
          acc <- read a ;;
          call fuel (CbEmit emit KNext) acc ;;;
          call fuel (CbEmit emit KComplete) VUndef
      | CbScanNextC f a emit =>
          acc <- read a ;;
          write a (f acc v) ;;;
          call fuel (CbEmit emit KNext) (f acc v)
      | CbStateMachineNext f a emit =>
          (* the assignment to [a] follows the return of [f] *)
          acc <- read a ;;
          for_each (fst (f acc v)) (fun e =>
            call fuel (CbEmit emit (fst e)) (snd e)) ;;;
          write a (snd (f acc v))
      | CbFilterNextC p emit =>
          if p v then call fuel (CbEmit emit KNext) v else ret tt
      end
  end.

(** ** The engine: subscribe, mount, unsubscribe *)

(** signal.js:38-42: a function becomes the [next] callback and the two
    following arguments [error] and [complete]; an object (also [null]) is
    kept as it is; anything else becomes the empty object. *)
Definition normalize (a : arguments) : option callbacks :=
  match a with
  | AFunction f args0 args1 => Some (Observer (Some f) args0 args1)
  | AObject o => Some o
  | ANull => None
  | AOther => Some (Observer None None None)
  end.

Section Mount.
(** The body of each mount function, for the signal [self] being mounted.
    [subscribe] calls it as [this._mount(nextHandler, errorHandler,
    completeHandler)] (signal.js:80).  The mount functions of signal.js
    name these arguments [next], [error] and [complete].  Those of the
    combinator modules have one parameter, [emit]: it holds the first
    argument, the function [nextHandler], and the other two are dropped. *)
Variable subscribe : sigid -> arguments -> M subid.
Variable invoke : callback -> value -> M unit.
Variable self : sigid.

Definition handlers : callbacks :=
  Observer (Some (nextHandler self))
           (Some (errorHandler self))
           (Some (completeHandler self)).

Definition emit : callback := nextHandler self.

Definition run_mount (m : mountfn) : M mountret :=
  match m with
  | MUser script unmount =>
      for_each script (fun e => invoke (CbHandler self (fst e)) (snd e)) ;;;
      ret (if unmount then RFunction UUser else RUndefined)
  | MDelayP n this =>
      s <- subscribe this
             (AFunction (CbDelayNextP n self) (error handlers)
                        (Some (CbDelayComplete n self))) ;;
      ret (RSubscription s)
  | MMap f this =>
      s <- subscribe this
             (AFunction (CbMapNext f self) (error handlers) (complete handlers)) ;;
      ret (RSubscription s)
  | MFilter p this =>
      s <- subscribe this
             (AFunction (CbFilterNext p self) (error handlers) (complete handlers)) ;;
      ret (RSubscription s)
  | MFold f a this =>
      s <- subscribe this
             (AFunction (CbFoldNext f a) (error handlers)
                        (Some (CbFoldComplete a self))) ;;
      ret (RSubscription s)
  | MScan f a this =>
      acc <- read a ;;
      invoke (nextHandler self) acc ;;;
      s <- subscribe this
             (AFunction (CbScanNext f a self) (error handlers) (complete handlers)) ;;
      ret (RSubscription s)
  | MMerge this ss =>
      count <- new_cell (VNum 0) ;;
      for_each (this :: ss) (fun s =>
        subscribe s (AFunction (nextHandler self) (error handlers)
                               (Some (CbMergeComplete count (length ss) self))) ;;;
        ret tt) ;;;
      ret RUndefined
  | MZip this ss =>
      as_ <- new_cell VNull ;;
      count <- new_cell (VNum 0) ;;
      for_each (imap pair (this :: ss)) (fun si =>
        subscribe (snd si)
                  (AFunction (CbZipNext as_ (fst si) (length ss) self) (error handlers)
                             (Some (CbZipComplete count (length ss) self))) ;;;
        ret tt) ;;;
      ret RUndefined
  | MDelayC n id s =>
      (* s.subscribe({...emit, next, complete}) *)
      subscribe s (AObject (Observer (Some (CbDelayNext n id emit))
                                     (error (spread emit))
                                     (Some (CbDelayCompleteC n emit)))) ;;;
      ret (RFunction (UClearTimeout id))
  | MFoldC f a s =>
      (* return s.subscribe({...emit, next, complete}) *)
      r <- subscribe s (AObject (Observer (Some (CbFoldNext f a))
                                          (error (spread emit))
                                          (Some (CbFoldCompleteC a emit)))) ;;
      ret (RSubscription r)
  | MScanC f a s =>
      (* emit.next(a) *)
      acc <- read a ;;
      invoke (CbEmit emit KNext) acc ;;;
      (* return s.subscribe({...emit, next}) *)
      r <- subscribe s (AObject (Observer (Some (CbScanNextC f a emit))
                                          (error (spread emit))
                                          (complete (spread emit)))) ;;
      ret (RSubscription r)
  | MStateMachineC f a s =>
      r <- subscribe s (AObject (Observer (Some (CbStateMachineNext f a emit))
                                          (error (spread emit))
                                          (complete (spread emit)))) ;;
      ret (RSubscription r)
  | MFilterC p s =>
      r <- subscribe s (AObject (Observer (Some (CbFilterNextC p emit))
                                          (error (spread emit))
                                          (complete (spread emit)))) ;;
      ret (RSubscription r)
  end.
End Mount.

(** [new Subscription(observer, disposer)]: the disposer closes over
    [this] and over the subscription itself. *)
Definition new_subscription (o : option callbacks) (this : sigid) : M subid :=
  id <- gets (fun st => length (subscriptions st)) ;;
  modify (set_subscriptions (fun l => l ++ [Subscription o this false])) ;;;
  ret id.

(** [Signal.prototype.subscribe] (signal.js:37-84).  The subscription is a
    new object, so [Set.add] always inserts it, at the end of the
    iteration order. *)
Fixpoint subscribe (fuel : nat) (this : sigid) (a : arguments) {struct fuel} : M subid :=
  match fuel with
  | 0 => raise OutOfFuel
  | S fuel =>
      let observer := normalize a in
      subscription <- new_subscription observer this ;;
      (* this._subscriptions.add(subscription) *)
      update_signal this (with_subscriptions (fun l => l ++ [subscription])) ;;;
      sg <- get_signal this ;;
      (if decide (length (_subscriptions sg) = 1)
       then
         update_signal this count_mount ;;;
         r <- run_mount (subscribe fuel) (call fuel) this (_mount sg) ;;
         update_signal this (with_unmount r)
       else ret tt) ;;;
      ret subscription
  end.

(** Calling the function stored in [_unmount]. *)
Definition run_unmount (u : unmountfn) : M unit :=
  match u with
  | UUser => ret tt
  | UClearTimeout id => v <- read id ;; clearTimeout v
  end.

(** The disposer of a subscription (signal.js:63-71). *)
Definition disposer (subscription : subid) : M unit :=
  sub <- get_subscription subscription ;;
  let this := owner sub in
  (* this._subscriptions.delete(subscription) *)
  update_signal this (with_subscriptions (filter (fun x => x ≠ subscription))) ;;;
  sg <- get_signal this ;;
  if decide (length (_subscriptions sg) = 0)
  then match _unmount sg with
       | RFunction u => update_signal this count_unmount ;;; run_unmount u
       | _ => ret tt
       end
  else ret tt.

(** Modelled from the spec: [Subscription.prototype.unsubscribe], whose
    module [./subscription] is not among the sources.  It "calls the
    disposer then marks itself inert so a second call is a no-op". *)
Definition unsubscribe (subscription : subid) : M unit :=
  sub <- get_subscription subscription ;;
  if closed sub then ret tt
  else
    disposer subscription ;;;
    modify (set_subscriptions
              (alter (fun s => Subscription (observer s) (owner s) true) subscription)).

(** ** Time *)

(** The pending timer that fires first: the earliest due time, and among
    equals the one that was set first. *)
Fixpoint earliest (l : list timer) : option timer :=
  match l with
  | [] => None
  | t :: l' =>
      match earliest l' with
      | Some t' => if decide (due t' < due t) then Some t' else Some t
      | None => Some t
      end
  end.

(** Let [n] milliseconds pass: the timers that fall due fire in order. *)
Fixpoint run_timers (fuel : nat) (deadline : nat) {struct fuel} : M unit :=
  match fuel with
  | 0 => raise OutOfFuel
  | S fuel =>
      l <- gets timers ;;
      match earliest l with
      | Some t =>
          if decide (due t <= deadline)
          then
            modify (set_timers (filter (fun t' => tid t' ≠ tid t))) ;;;
            modify (set_clock (due t)) ;;;
            call fuel (action t) (payload t) ;;;
            run_timers fuel deadline
          else modify (set_clock deadline)
      | None => modify (set_clock deadline)
      end
  end.

Definition elapse (fuel : nat) (n : nat) : M unit :=
  now <- gets clock ;;
  run_timers fuel (now + n).

(** ** Constructors *)

Module Signal.

(** [new Signal(mount)] (signal.js:15-23); [None] is an argument that is
    not a function. *)
Definition new (mount : option mountfn) : M sigid :=
  match mount with
  | None => raise TypeError
  | Some m =>
      id <- gets (fun st => length (signals st)) ;;
      modify (set_signals (fun l => l ++ [Signal m RUndefined [] 0 0])) ;;;
      ret id
  end.

(** [Signal.empty], [Signal.of] and [Signal.fromArray]
    (signal.js:91-121). *)
Definition empty : M sigid := new (Some (MUser [(KComplete, VUndef)] false)).
Definition of_ (a : value) : M sigid :=
  new (Some (MUser ((if truthy a then [(KNext, a)] else []) ++ [(KComplete, VUndef)])
                   false)).
Definition fromArray (as_ : list value) : M sigid :=
  new (Some (MUser (map (pair KNext) as_ ++ [(KComplete, VUndef)]) false)).

(** The callback that [Signal.fromCallback] hands to [f]
    (signal.js:131-137): a message that is neither [undefined] nor [null]
    is an error, otherwise the value is emitted. *)
Definition node_callback (message value : value) : emission :=
  match message with
  | VUndef | VNull => (KNext, value)
  | _ => (KError, message)
  end.

(** [Signal.fromCallback(f)] (signal.js:129-139), for a function [f] that
    calls the callback it is given with the arguments listed in [calls]
    before it returns. *)
Definition fromCallback (calls : list (value * value)) : M sigid :=
  new (Some (MUser (map (fun c => node_callback c.1 c.2) calls) false)).

Definition delay (n : nat) (this : sigid) : M sigid :=
  new (Some (MDelayP n this)).
Definition map (f : value -> value) (this : sigid) : M sigid :=
  new (Some (MMap f this)).
Definition filter (p : value -> bool) (this : sigid) : M sigid :=
  new (Some (MFilter p this)).
(** The accumulator of [fold] and [scan] is the parameter [a] of the
    combinator itself, assigned by the callbacks. *)
Definition fold (f : value -> value -> value) (a : value) (this : sigid) : M sigid :=
  c <- new_cell a ;; new (Some (MFold f c this)).
Definition scan (f : value -> value -> value) (a : value) (this : sigid) : M sigid :=
  c <- new_cell a ;; new (Some (MScan f c this)).
Definition merge (this : sigid) (ss : list sigid) : M sigid :=
  new (Some (MMerge this ss)).
Definition zip (this : sigid) (ss : list sigid) : M sigid :=
  new (Some (MZip this ss)).

End Signal.

Module Combinator.

(** combinator/delay.js: [let id] belongs to the call of [delay]. *)
Definition delay (n : nat) (s : sigid) : M sigid :=
  id <- new_cell VUndef ;; Signal.new (Some (MDelayC n id s)).

Definition fold (f : value -> value -> value) (a : value) (s : sigid) : M sigid :=
  c <- new_cell a ;; Signal.new (Some (MFoldC f c s)).
Definition scan (f : value -> value -> value) (a : value) (s : sigid) : M sigid :=
  c <- new_cell a ;; Signal.new (Some (MScanC f c s)).
Definition stateMachine (f : value -> value -> list emission * value)
    (a : value) (s : sigid) : M sigid :=
  c <- new_cell a ;; Signal.new (Some (MStateMachineC f c s)).

Definition filter (p : value -> bool) (s : sigid) : M sigid :=
  Signal.new (Some (MFilterC p s)).

(** The methods that signal.js gives to [Signal.prototype]. *)
Definition prototype : list string :=
  ["constructor"; "subscribe"; "delay"; "concatMap"; "map"; "filter"; "fold"; "scan";
   "merge"; "zip"].

(** [s.name(...)] for a signal [s]: when [Signal.prototype] lacks [name],
    the lookup is [undefined] and the call raises a TypeError before any
    signal is made.  The methods that signal.js does define are the
    functions of [Signal] above; [send] has no body for them. *)
Definition send {A} (name : string) : M A :=
  if decide (name ∈ prototype) then raise Stuck else raise TypeError.

(** combinator/filter.js:44-49 and 32-34: [dedupeWith(f, s)] is
    [s.stateMachine(...)] and [dedupe(s)] is [s.dedupeWith(equal)];
    signal.js defines neither method (the [stateMachine] of delay.js is a
    function of its module). *)
Definition dedupeWith (f : value -> value -> bool) (s : sigid) : M sigid :=
  send "stateMachine".
Definition dedupe (s : sigid) : M sigid :=
  send "dedupeWith".

End Combinator.

(** ** Observations and relations between stores *)

Definition is_function (r : mountret) : bool :=
  match r with RFunction _ => true | _ => false end.

(** The combinators of signal.js whose mount function hands the result of
    [subscribe], or nothing, back to the engine, with their counterparts
    in the combinator modules. *)
Definition combinator (m : mountfn) : bool :=
  match m with
  | MMap _ _ | MFilter _ _ | MFold _ _ _ | MScan _ _ _ | MMerge _ _ | MZip _ _
  | MFoldC _ _ _ | MScanC _ _ _ | MFilterC _ _ => true
  | _ => false
  end.

(** The signals a mount function subscribes to. *)
Definition upstreams (m : mountfn) : list sigid :=
  match m with
  | MUser _ _ => []
  | MDelayP _ s | MMap _ s | MFilter _ s | MFold _ _ s | MScan _ _ s
  | MDelayC _ _ s | MFoldC _ _ s | MScanC _ _ s | MStateMachineC _ _ s
  | MFilterC _ s => [s]
  | MMerge this ss | MZip this ss => this :: ss
  end.

(** The store after the first two steps of [subscribe]: the subscription
    exists and is in the registry of [this]. *)
Definition registered (st : state) (this : sigid) (a : arguments) : state :=
  set_signals
    (alter (with_subscriptions (fun l => l ++ [length (subscriptions st)])) this)
    (set_subscriptions (fun l => l ++ [Subscription (normalize a) this false]) st).

(** The store after the first step of a disposer. *)
Definition removed (st : state) (id : subid) (this : sigid) : state :=
  set_signals (alter (with_subscriptions (filter (fun x => x <> id))) this) st.

(** [m] keeps the relation [R] between the store it starts from and the
    store it ends in, whether it returns or stops early. *)
Definition preserves {A} (R : state -> state -> Prop) (m : M A) : Prop :=
  forall st, R st (m st).2.

Definition same_objects (st st' : state) : Prop :=
  signals st' = signals st /\ subscriptions st' = subscriptions st.

Definition same_subscriptions (st st' : state) : Prop :=
  subscriptions st' = subscriptions st.

Definition same_mounts (st st' : state) : Prop :=
  forall x, mounts st' x = mounts st x.

(** What subscribing can do to a signal: the registry is extended at its
    end, the unmount function is not called, and a signal that had
    subscribers is not mounted again and keeps its [_unmount]. *)
Definition signal_grows (sg sg' : signal) : Prop :=
  _mount sg' = _mount sg /\
  _subscriptions sg `prefix_of` _subscriptions sg' /\
  unmounted sg' = unmounted sg /\
  (_subscriptions sg <> [] -> mounted sg' = mounted sg /\ _unmount sg' = _unmount sg).

Definition grows (st st' : state) : Prop :=
  subscriptions st `prefix_of` subscriptions st' /\
  Forall2 signal_grows (signals st) (signals st').

(** ** Client programs *)

(** [N] calls of [subscribe] on the same signal. *)
Fixpoint subscribe_all (fuel : nat) (this : sigid) (l : list arguments) : M (list subid) :=
  match l with
  | [] => ret []
  | a :: l' =>
      id <- subscribe fuel this a ;;
      ids <- subscribe_all fuel this l' ;;
      ret (id :: ids)
  end.

(** A client observer with three callbacks of its own.  Observer [o]
    records its calls under the tags [on_next o], [on_error o] and
    [on_complete o]. *)
Definition on_next (o : nat) : nat := 3 * o.
Definition on_error (o : nat) : nat := 3 * o + 1.
Definition on_complete (o : nat) : nat := 3 * o + 2.
Definition user_observer (o : nat) : callbacks :=
  Observer (Some (CbUser (on_next o))) (Some (CbUser (on_error o)))
           (Some (CbUser (on_complete o))).
Definition user (o : nat) : arguments := AObject (user_observer o).

(** A signal whose mount function only keeps the handlers it is given:
    the client calls them later, as an event source does. *)
Definition source : M sigid := Signal.new (Some (MUser [] false)).

(** The source [s] calls its handlers. *)
Definition emits (fuel : nat) (s : sigid) (es : list emission) : M unit :=
  for_each es (fun e => call fuel (CbHandler s (fst e)) (snd e)).
Definition values (vs : list value) : list emission := map (pair KNext) vs.
Definition completes : list emission := [(KComplete, VUndef)].

(** The upstream signals listed in [order] complete, one after the
    other. *)
Definition completes_all (fuel : nat) (order : list sigid) : M unit :=
  for_each order (fun u => call fuel (CbHandler u KComplete) VUndef).

(** [(a, b) => a + b] on integers, and on strings, which it concatenates.
    The other sums of JavaScript ([NaN], or a number turned into a string)
    are outside the values of this model and are not used. *)
Definition add (a b : value) : value :=
  match a, b with
  | VNum x, VNum y => VNum (x + y)
  | VStr x, VStr y => VStr (x ++ y)
  | _, _ => VUndef
  end.

(** A source, a combinator [mk] over it, and one observer on the
    combinator: returns the source, the combinator and the subscription. *)
Definition setup (fuel : nat) (mk : sigid -> M sigid) : M (sigid * sigid * subid) :=
  s <- source ;; d <- mk s ;; o <- subscribe fuel d (user 0) ;; ret (s, d, o).

(** ... then the source emits [es]. *)
Definition observe (fuel : nat) (mk : sigid -> M sigid) (es : list emission) : M unit :=
  sdo <- setup fuel mk ;; emits fuel (sdo.1.1) es.

(** ... or the source emits the values [vs], the observer unsubscribes (its
    disposer runs), a second observer subscribes, and the source emits
    [es]. *)
Definition remount (fuel : nat) (mk : sigid -> M sigid)
    (vs : list value) (es : list emission) : M unit :=
  sdo <- setup fuel mk ;;
  emits fuel (sdo.1.1) (values vs) ;;;
  disposer (sdo.2) ;;;
  subscribe fuel (sdo.1.2) (user 1) ;;;
  emits fuel (sdo.1.1) es.

(** ... or the source emits the values [vs], the observer unsubscribes, the
    source emits the values [ws] while the combinator has no subscriber,
    and a second observer subscribes. *)
Definition resumed (fuel : nat) (mk : sigid -> M sigid) (vs ws : list value) : M unit :=
  sdo <- setup fuel mk ;;
  emits fuel (sdo.1.1) (values vs) ;;;
  disposer (sdo.2) ;;;
  emits fuel (sdo.1.1) (values ws) ;;;
  subscribe fuel (sdo.1.2) (user 1) ;;;
  ret tt.

(** The store [setup] leaves: the source is signal 0 and the combinator
    signal 1; subscription 0 is the observer's, subscription 1 the
    combinator's, on the source; the accumulator is variable 0. *)
Definition watching (m : mountfn) (derived : callbacks) (acc : value)
    (tr : list (nat * value)) : state :=
  State [Signal (MUser [] false) RUndefined [1] 1 0; Signal m (RSubscription 1) [0] 1 0]
        [Subscription (Some (user_observer 0)) 1 false;
         Subscription (Some derived) 0 false]
        [acc] [] 1 0 tr.

(** The same store after the observer has unsubscribed: the combinator has
    no subscriber, and its subscription stays on the source. *)
Definition unwatched (m : mountfn) (derived : callbacks) (acc : value)
    (tr : list (nat * value)) : state :=
  State [Signal (MUser [] false) RUndefined [1] 1 0; Signal m (RSubscription 1) [] 1 0]
        [Subscription (Some (user_observer 0)) 1 false;
         Subscription (Some derived) 0 false]
        [acc] [] 1 0 tr.

Definition fold_observer (f : value -> value -> value) : callbacks :=
  Observer (Some (CbFoldNext f 0)) (Some (CbHandler 1 KError))
           (Some (CbFoldComplete 0 1)).
Definition scan_observer (f : value -> value -> value) : callbacks :=
  Observer (Some (CbScanNext f 0 1)) (Some (CbHandler 1 KError))
           (Some (CbHandler 1 KComplete)).

(** The observers that the mount functions of the combinator modules
    subscribe with: [{...emit, next, complete}] for fold and
    [{...emit, next}] for stateMachine, where [emit] is [nextHandler]. *)
Definition foldC_observer (f : value -> value -> value) : callbacks :=
  Observer (Some (CbFoldNext f 0)) None (Some (CbFoldCompleteC 0 (nextHandler 1))).
Definition stateMachine_observer (f : value -> value -> list emission * value) : callbacks :=
  Observer (Some (CbStateMachineNext f 0 (nextHandler 1))) None None.

(** A transform function that emits nothing: its state follows [g]. *)
Definition silent (g : value -> value -> value) (a b : value) : list emission * value :=
  ([], g a b).

(** The same with [Signal.fromArray(as)] for the source, which emits its
    values and completes while it is being mounted. *)
Definition observe_array (fuel : nat) (mk : sigid -> M sigid) (as_ : list value) : M unit :=
  s <- Signal.fromArray as_ ;; d <- mk s ;; subscribe fuel d (user 0) ;;; ret tt.

(** While the source emits [vs] the observer sees nothing; when the source
    then completes, the observer sees [acc] once and then the
    completion. *)
Definition folds_to (fuel : nat) (mk : sigid -> M sigid) (vs : list value)
    (acc : value) : Prop :=
  (observe fuel mk (values vs) initial).1 = Ok tt /\
  trace (observe fuel mk (values vs) initial).2 = [] /\
  (observe fuel mk (values vs ++ completes) initial).1 = Ok tt /\
  trace (observe fuel mk (values vs ++ completes) initial).2
    = [(on_next 0, acc); (on_complete 0, VUndef)].

(** After the values [vs], the unmount, the values [ws] and the remount,
    the combinator (signal 1) has been mounted twice, has the new
    subscriber only, and its accumulator (variable 0) holds [acc]. *)
Definition continues_from (fuel : nat) (mk : sigid -> M sigid) (vs ws : list value)
    (acc : value) : Prop :=
  exists st, resumed fuel mk vs ws initial = (Ok tt, st) /\
    registry st 1 = [2] /\ mounts st 1 = 2 /\ cells st !! 0 = Some acc.

(** The only subscription on [u] has [k] as its complete callback. *)
Definition only_subscriber (st : state) (u : sigid) (k : callback) : Prop :=
  exists sg s sub o,
    signals st !! u = Some sg /\ _subscriptions sg = [s] /\
    subscriptions st !! s = Some sub /\ observer sub = Some o /\
    complete o = Some k.

(** [k] is the [onComplete] closure of a merge or of a zip. *)
Definition join_complete (count : cellid) (len : nat) (d : sigid) (k : callback) : Prop :=
  k = CbMergeComplete count len d \/ k = CbZipComplete count len d.

(** The store after one call of [onComplete] that found the counter at
    [c], when the observer of the join records completion under [tag]. *)
Definition after_complete (count : cellid) (len : nat) (tag : nat) (c : Z)
    (st : state) : state :=
  let st1 := set_cells (<[count := VNum (c + 1)]>) st in
  if decide (Z.of_nat len < c + 1)%Z
  then set_trace (fun t => t ++ [(tag, VUndef)]) st1
  else st1.

(** The join [d] over the upstreams [ups] has just been mounted: its
    counter is 0, one client observes it, and its [onComplete] is
    registered on every upstream, which has no other subscriber. *)
Definition joined (st : state) (ups : list sigid) (d : sigid) (count : cellid)
    (k : callback) (tag : nat) : Prop :=
  join_complete count (length ups - 1) d k /\
  ups <> [] /\
  cells st !! count = Some (VNum 0) /\
  only_subscriber st d (CbUser tag) /\
  Forall (fun u => only_subscriber st u k) ups.

(** [A.zip(B)] with one observer; then the sources emit the values listed,
    each with the index of its source (0 for [A], 1 for [B]). *)
Definition zip_two (fuel : nat) (events : list (nat * value)) : M unit :=
  a <- source ;;
  b <- source ;;
  z <- Signal.zip a [b] ;;
  subscribe fuel z (user 0) ;;;
  for_each events (fun e =>
    call fuel (CbHandler (if decide (e.1 = 0) then a else b) KNext) e.2).

(** A source with the subscribers listed, then one broadcast. *)
Definition broadcast (fuel : nat) (subscribers : list arguments) (k : channel)
    (v : value) : M unit :=
  s <- source ;;
  subscribe_all fuel s subscribers ;;;
  call fuel (CbHandler s k) v.

(** A delay over a source, with one observer: the source emits two values
    and completes at time 0 ... *)
Definition scheduled (fuel : nat) (mk : sigid -> M sigid) (v1 v2 : value) : M subid :=
  s <- source ;;
  d <- mk s ;;
  o <- subscribe fuel d (user 0) ;;
  emits fuel s [(KNext, v1); (KNext, v2); (KComplete, VUndef)] ;;;
  ret o.

(** ... and at time 50 the observer unsubscribes. *)
Definition delayed (fuel : nat) (mk : sigid -> M sigid) (v1 v2 : value) : M unit :=
  o <- scheduled fuel mk v1 v2 ;;
  elapse fuel 50 ;;;
  disposer o.

(** ... then a second observer subscribes to the delay (signal 1), and 60
    more milliseconds pass. *)
Definition delayed_resubscribed (fuel : nat) (mk : sigid -> M sigid)
    (v1 v2 : value) : M unit :=
  delayed fuel mk v1 v2 ;;;
  subscribe fuel 1 (user 1) ;;;
  elapse fuel 60.

(** [n] further sources. *)
Fixpoint sources (n : nat) : M (list sigid) :=
  match n with
  | 0 => ret []
  | S n => s <- source ;; ss <- sources n ;; ret (s :: ss)
  end.

(** A join [mk] (merge or zip) of a source with [n] other sources, with
    one observer; then the sources listed in [order] complete.  The sources
    are the signals [0 .. n], the join is signal [n + 1]. *)
Definition join (fuel : nat) (mk : sigid -> list sigid -> M sigid) (n : nat)
    (order : list sigid) : M unit :=
  this <- source ;;
  ss <- sources n ;;
  d <- mk this ss ;;
  subscribe fuel d (user 0) ;;;
  completes_all fuel order.

(** A join [mk] of two sources with one observer, who unsubscribes; a
    second observer subscribes, and then the two sources complete. *)
Definition join_remounted (fuel : nat) (mk : sigid -> list sigid -> M sigid) : M unit :=
  a <- source ;;
  b <- source ;;
  d <- mk a [b] ;;
  o <- subscribe fuel d (user 0) ;;
  disposer o ;;;
  subscribe fuel d (user 1) ;;;
  completes_all fuel [a; b].

(** When the sources listed in [order] have completed, the counter of the
    join (variable [count]) holds their number, and the observer's
    [complete] has been called once if they are all [n + 1] sources and not
    at all otherwise. *)
Definition completes_once (fuel : nat) (mk : sigid -> list sigid -> M sigid)
    (count : cellid) (n : nat) (order : list sigid) : Prop :=
  exists st,
    join fuel mk n order initial = (Ok tt, st) /\
    cells st !! count = Some (VNum (Z.of_nat (length order))) /\
    trace st = (if decide (length order = S n) then [(on_complete 0, VUndef)] else []).

(** A source that nobody has subscribed to. *)
Definition fresh_source : signal := Signal (MUser [] false) RUndefined [] 0 0.

(** The store after the [n + 1] sources and the join with mount function
    [m] have been built. *)
Definition built (n : nat) (m : mountfn) : state :=
  State (replicate (S n) fresh_source ++ [Signal m RUndefined [] 0 0]) [] [] [] 1 0 [].

(** The store after a [subscribe] on the fresh source [j]. *)
Definition subscribed_source (st : state) (j : sigid) (a : arguments) : state :=
  set_signals (alter (with_unmount RUndefined) j)
    (set_signals (alter count_mount j) (registered st j a)).

(** The join [d] is being mounted: it has its observer, its counter is 0,
    nothing has been recorded, its [onComplete] closure [k] is the only
    subscriber of the sources below [j], and the sources from [j] on are
    still fresh. *)
Definition joining (n : nat) (d : sigid) (count : cellid) (k : callback) (j : nat)
    (st : state) : Prop :=
  cells st !! count = Some (VNum 0) /\
  trace st = [] /\
  only_subscriber st d (CbUser (on_complete 0)) /\
  (forall u, u < j -> only_subscriber st u k) /\
  (forall u, j <= u < S n -> signals st !! u = Some fresh_source).

(** A signal whose mount function returns an unmount function, with no
    subscriber yet. *)
Definition mountable : state := (Signal.new (Some (MUser [] true)) initial).2.

(** One observer subscribes to such a signal and unsubscribes. *)
Definition subscribe_unsubscribe (fuel : nat) : M unit :=
  s <- Signal.new (Some (MUser [] true)) ;;
  o <- subscribe fuel s (user 0) ;;
  disposer o.

(** A source and a map over it, not yet subscribed. *)
Definition mapped (f : value -> value) : state :=
  ((s <- source ;; Signal.map f s) initial).2.

(** ** Observers and what they record *)

(** The tag under which observer [o] records a call on channel [k], and
    the record that the emission [e] leaves when it reaches observer
    [o]. *)
Definition tag_of (k : channel) (o : nat) : nat :=
  match k with
  | KNext => on_next o
  | KError => on_error o
  | KComplete => on_complete o
  end.
Definition deliver (o : nat) (e : emission) : nat * value :=
  (tag_of e.1 o, handler_argument e.1 e.2).

(** The subscriptions [ids] have, in this order, the client functions
    [tags] for their callback on channel [k]. *)
Definition heard_by (st : state) (k : channel) (ids : list subid) (tags : list nat) : Prop :=
  Forall2 (fun id tag => exists sub o,
             subscriptions st !! id = Some sub /\ observer sub = Some o /\
             member o k = Some (CbUser tag)) ids tags.

(** The registry of [s] holds the subscriptions of the client observers
    [os], in this order. *)
Definition observed_by (st : state) (s : sigid) (os : list nat) : Prop :=
  exists sg, signals st !! s = Some sg /\
    Forall2 (fun id o => exists sub,
               subscriptions st !! id = Some sub /\
               observer sub = Some (user_observer o)) (_subscriptions sg) os.

Definition record (l : list (nat * value)) (st : state) : state :=
  set_trace (fun t => t ++ l) st.

(** ** A source and its audience *)

Definition users (n : nat) : list arguments := map user (seq 0 n).

(** A source with the observers [0 .. n-1], subscribed in this order:
    subscription [o] is the one of observer [o]. *)
Definition audience (fuel n : nat) : M sigid :=
  s <- source ;; subscribe_all fuel s (users n) ;;; ret s.

(** ... then the source emits [es]. *)
Definition announce (fuel n : nat) (es : list emission) : M unit :=
  s <- audience fuel n ;; emits fuel s es.

(** ... after observer [i] has unsubscribed. *)
Definition announce_without (fuel n i : nat) (es : list emission) : M unit :=
  s <- audience fuel n ;; disposer i ;;; emits fuel s es.

(** The store that [audience] leaves. *)
Definition audience_state (n : nat) : state :=
  State [Signal (MUser [] false) RUndefined (seq 0 n) (Nat.min 1 n) 0]
        (map (fun o => Subscription (Some (user_observer o)) 0 false) (seq 0 n))
        [] [] 1 0 [].

(** ** Sources that emit while they are mounted *)

(** One observer subscribes to the signal that [mk] builds. *)
Definition subscribe_one (fuel : nat) (mk : M sigid) : M subid :=
  s <- mk ;; subscribe fuel s (user 0).

(** Two observers subscribe, one after the other. *)
Definition two_subscribers (fuel : nat) (mk : M sigid) : M unit :=
  s <- mk ;;
  subscribe fuel s (user 0) ;;;
  subscribe fuel s (user 1) ;;;
  ret tt.

(** An observer subscribes and unsubscribes (its disposer runs), then a
    second observer subscribes. *)
Definition one_after_the_other (fuel : nat) (mk : M sigid) : M unit :=
  s <- mk ;;
  o <- subscribe fuel s (user 0) ;;
  disposer o ;;;
  subscribe fuel s (user 1) ;;;
  ret tt.

(** [s.subscribe(f)]: a function for [next], and nothing else. *)
Definition next_only : arguments := AFunction (CbUser (on_next 0)) None None.
Definition subscribe_next_only (fuel : nat) (mk : M sigid) : M subid :=
  s <- mk ;; subscribe fuel s next_only.

(** ** One combinator over one source *)

(** A combinator (signal 1, mount function [m], [_unmount] at [u]) over a
    source (signal 0) whose mount function emits [script]; subscription 0
    is the observer's, subscription 1 the combinator's, on the source; [cs]
    are the variables of the combinator. *)
Definition streaming (script : list emission) (u : mountret) (m : mountfn)
    (derived : callbacks) (cs : list value) (tr : list (nat * value)) : state :=
  State [Signal (MUser script false) RUndefined [1] 1 0; Signal m u [0] 1 0]
        [Subscription (Some (user_observer 0)) 1 false;
         Subscription (Some derived) 0 false]
        cs [] 1 0 tr.

(** The store [setup] leaves for a combinator that has no variable of its
    own. *)
Definition flowing (m : mountfn) (derived : callbacks) (tr : list (nat * value)) : state :=
  streaming [] (RSubscription 1) m derived [] tr.

(** The store in which [subscribe] finds a combinator over
    [Signal.fromArray(as)]. *)
Definition unmounted_over (script : list emission) (m : mountfn) (cs : list value) : state :=
  State [Signal (MUser script false) RUndefined [] 0 0; Signal m RUndefined [] 0 0]
        [] cs [] 1 0 [].

Definition map_observer (f : value -> value) : callbacks :=
  Observer (Some (CbMapNext f 1)) (Some (errorHandler 1)) (Some (completeHandler 1)).
Definition filter_observer (p : value -> bool) : callbacks :=
  Observer (Some (CbFilterNext p 1)) (Some (errorHandler 1)) (Some (completeHandler 1)).

(** What [map f] and [filter p] make of an emission of their source. *)
Definition map_emission (f : value -> value) (e : emission) : emission :=
  match e.1 with
  | KNext => (KNext, f e.2)
  | _ => e
  end.
Definition passes (p : value -> bool) (e : emission) : bool :=
  match e.1 with
  | KNext => p e.2
  | _ => true
  end.

(** What a scan with the accumulator [a] makes of the emissions of its
    source: every value is replaced by the accumulator after it. *)
Fixpoint scan_emissions (f : value -> value -> value) (a : value) (es : list emission)
    : list emission :=
  match es with
  | [] => []
  | e :: es =>
      match e.1 with
      | KNext => (KNext, f a e.2) :: scan_emissions f (f a e.2) es
      | _ => e :: scan_emissions f a es
      end
  end.

(** A state machine whose transform function [f] is called with the values
    [vs] in turn, from the state [a]: [quiet] tells whether no call emits
    anything, and [settled] is the state when the calls are over or, if one
    of them emits, the state in which that call was made. *)
Fixpoint quiet (f : value -> value -> list emission * value) (a : value)
    (vs : list value) : bool :=
  match vs with
  | [] => true
  | v :: vs => match (f a v).1 with
               | [] => quiet f (f a v).2 vs
               | _ :: _ => false
               end
  end.
Fixpoint settled (f : value -> value -> list emission * value) (a : value)
    (vs : list value) : value :=
  match vs with
  | [] => a
  | v :: vs => match (f a v).1 with
               | [] => settled f (f a v).2 vs
               | _ :: _ => a
               end
  end.

(** ** Two sources joined *)

(** [A.merge(B)] with one observer; then the sources emit as listed, each
    emission with the index of its source (0 for [A], 1 for [B]). *)
Definition merge_two (fuel : nat) (events : list (nat * emission)) : M unit :=
  a <- source ;;
  b <- source ;;
  m <- Signal.merge a [b] ;;
  subscribe fuel m (user 0) ;;;
  for_each events (fun e =>
    call fuel (CbHandler (if decide (e.1 = 0) then a else b) e.2.1) e.2.2).

(** What a merge of [len + 1] signals whose counter is at [count] makes of
    the emissions of its sources: values and errors pass; a completion
    passes when it brings the counter above [len]. *)
Fixpoint merge_emissions (len : nat) (count : Z) (es : list emission) : list emission :=
  match es with
  | [] => []
  | e :: es =>
      match e.1 with
      | KComplete =>
          (if decide (Z.of_nat len < count + 1)%Z then [(KComplete, VUndef)] else [])
          ++ merge_emissions len (count + 1) es
      | _ => e :: merge_emissions len count es
      end
  end.

(** The store of [merge_two] when the counter is at [c]. *)
Definition merging (c : Z) (tr : list (nat * value)) : state :=
  State [Signal (MUser [] false) RUndefined [1] 1 0;
         Signal (MUser [] false) RUndefined [2] 1 0;
         Signal (MMerge 0 [1]) RUndefined [0] 1 0]
        [Subscription (Some (user_observer 0)) 2 false;
         Subscription (Some (Observer (Some (nextHandler 2)) (Some (errorHandler 2))
                                      (Some (CbMergeComplete 0 1 2)))) 0 false;
         Subscription (Some (Observer (Some (nextHandler 2)) (Some (errorHandler 2))
                                      (Some (CbMergeComplete 0 1 2)))) 1 false]
        [VNum c] [] 1 0 tr.

(** The store of [zip_two] between two rounds: the buffer is [null]. *)
Definition zipping (tr : list (nat * value)) : state :=
  State [Signal (MUser [] false) RUndefined [1] 1 0;
         Signal (MUser [] false) RUndefined [2] 1 0;
         Signal (MZip 0 [1]) RUndefined [0] 1 0]
        [Subscription (Some (user_observer 0)) 2 false;
         Subscription (Some (Observer (Some (CbZipNext 0 0 1 2)) (Some (errorHandler 2))
                                      (Some (CbZipComplete 1 1 2)))) 0 false;
         Subscription (Some (Observer (Some (CbZipNext 0 1 1 2)) (Some (errorHandler 2))
                                      (Some (CbZipComplete 1 1 2)))) 1 false]
        [VNull; VNum 0] [] 1 0 tr.

(** Rounds in which [A] emits first and [B] second. *)
Definition rounds (pairs : list (value * value)) : list (nat * value) :=
  flat_map (fun ab => [(0, ab.1); (1, ab.2)]) pairs.

(** ** Two combinators in a row *)

Inductive stage : Type :=
| SMap (f : value -> value)
| SFilter (p : value -> bool).

Definition build (g : stage) (s : sigid) : M sigid :=
  match g with
  | SMap f => Signal.map f s
  | SFilter p => Signal.filter p s
  end.

(** What a stage lets through of an emission of its source. *)
Definition through (g : stage) (e : emission) : option emission :=
  match g with
  | SMap f => Some (map_emission f e)
  | SFilter p => if passes p e then Some e else None
  end.

Definition stage_mount (g : stage) (s : sigid) : mountfn :=
  match g with
  | SMap f => MMap f s
  | SFilter p => MFilter p s
  end.
Definition stage_observer (g : stage) (d : sigid) : callbacks :=
  Observer (Some (match g with
                  | SMap f => CbMapNext f d
                  | SFilter p => CbFilterNext p d
                  end))
           (Some (errorHandler d)) (Some (completeHandler d)).

(** The store [setup] leaves for the stage [g2] over the stage [g1] over a
    source. *)
Definition flowing2 (g1 g2 : stage) (tr : list (nat * value)) : state :=
  State [Signal (MUser [] false) RUndefined [2] 1 0;
         Signal (stage_mount g1 0) (RSubscription 2) [1] 1 0;
         Signal (stage_mount g2 1) (RSubscription 1) [0] 1 0]
        [Subscription (Some (user_observer 0)) 2 false;
         Subscription (Some (stage_observer g2 2)) 1 false;
         Subscription (Some (stage_observer g1 1)) 0 false]
        [] [] 1 0 tr.

(** ** delay over one source *)

(** A source, a combinator over it and one observer; the source emits
    [es], and [wait] milliseconds pass. *)
Definition observe_later (fuel : nat) (mk : sigid -> M sigid) (es : list emission)
    (wait : nat) : M unit :=
  observe fuel mk es ;;; elapse fuel wait.

Definition is_error (e : emission) : bool :=
  match e.1 with
  | KError => true
  | _ => false
  end.
Definition errors (es : list emission) : list emission := List.filter is_error es.
Definition postponed (es : list emission) : list emission :=
  List.filter (fun e => negb (is_error e)) es.

(** The timers of a delay (signal 1) for the emissions in [q], each with
    the time at which it is due; the first has the id [first]. *)
Fixpoint queued (first : nat) (q : list (nat * emission)) : list timer :=
  match q with
  | [] => []
  | de :: q =>
      Timer first de.1 (CbHandler 1 de.2.1) (handler_argument de.2.1 de.2.2)
      :: queued (S first) q
  end.

(** The timers that a delay of [n] milliseconds sets at time 0 for the
    emissions [es]. *)
Definition pending (n first : nat) (es : list emission) : list timer :=
  queued first (map (pair n) es).

(** The entries of [q] are in the order of their times. *)
Fixpoint in_order (q : list (nat * emission)) : Prop :=
  match q with
  | [] => True
  | de :: q => Forall (fun b => de.1 <= b.1) q /\ in_order q
  end.

(** The entries of [q] whose time is at most [T], and the others. *)
Definition due_by (T : nat) (q : list (nat * emission)) : list (nat * emission) :=
  List.filter (fun de => de.1 <=? T) q.
Definition due_after (T : nat) (q : list (nat * emission)) : list (nat * emission) :=
  List.filter (fun de => T <? de.1) q.

(** The store of a delay (signal 1) over a source (signal 0), with one
    observer. *)
Definition delaying (m : mountfn) (u : mountret) (derived : callbacks)
    (cs : list value) (ts : list timer) (nt ck : nat) (tr : list (nat * value)) : state :=
  State [Signal (MUser [] false) RUndefined [1] 1 0; Signal m u [0] 1 0]
        [Subscription (Some (user_observer 0)) 1 false;
         Subscription (Some derived) 0 false]
        cs ts nt ck tr.

Definition delay_observer (n : nat) : callbacks :=
  Observer (Some (CbDelayNextP n 1)) (Some (errorHandler 1)) (Some (CbDelayComplete n 1)).

(** ** A combinator that is subscribed to again *)

(** The store after an observer has subscribed to [s.map(f)] and
    unsubscribed, and a second observer has subscribed: the map (signal 1)
    has the second observer only, the source (signal 0) has the
    subscriptions of both mounts of the map. *)
Definition resubscribed (f : value -> value) (tr : list (nat * value)) : state :=
  State [Signal (MUser [] false) RUndefined [1; 3] 1 0;
         Signal (MMap f 0) (RSubscription 3) [2] 2 0]
        [Subscription (Some (user_observer 0)) 1 false;
         Subscription (Some (map_observer f)) 0 false;
         Subscription (Some (user_observer 1)) 1 false;
         Subscription (Some (map_observer f)) 0 false]
        [] [] 1 0 tr.

(** ** delay over a source that emits in the course of time *)

(** The source emits as [timeline] says: every entry is the time that
    passes before an emission, and the emission. *)
Fixpoint play (fuel : nat) (s : sigid) (timeline : list (nat * emission)) : M unit :=
  match timeline with
  | [] => ret tt
  | ge :: timeline =>
      elapse fuel ge.1 ;;;
      call fuel (CbHandler s ge.2.1) ge.2.2 ;;;
      play fuel s timeline
  end.

(** A source, a combinator over it and one observer; the source emits as
    [timeline] says, and [wait] more milliseconds pass. *)
Definition observe_timeline (fuel : nat) (mk : sigid -> M sigid)
    (timeline : list (nat * emission)) (wait : nat) : M unit :=
  sdo <- setup fuel mk ;;
  play fuel (sdo.1.1) timeline ;;;
  elapse fuel wait.

(** The emissions of a timeline that starts at the time [now], each with
    the time at which a delay of [n] milliseconds is to deliver it, and the
    time the timeline takes. *)
Fixpoint schedule (n now : nat) (timeline : list (nat * emission)) : list (nat * emission) :=
  match timeline with
  | [] => []
  | ge :: timeline => (now + ge.1 + n, ge.2) :: schedule n (now + ge.1) timeline
  end.
Definition span (timeline : list (nat * emission)) : nat :=
  fold_right (fun ge t => ge.1 + t) 0 timeline.

(** The store of a delay at the time [ck], when [sched] lists what its
    source has emitted, with the times of delivery: the timers of the
    deliveries that are due have fired. *)
Definition delayed_at (m : mountfn) (u : mountret) (derived : callbacks)
    (cs : list value) (ck : nat) (sched : list (nat * emission)) : state :=
  delaying m u derived cs
    (queued (1 + length (due_by ck sched)) (due_after ck sched))
    (1 + length sched) ck
    (map (deliver 0) (map snd (due_by ck sched))).

(** ** Any number of combinators in a row *)

(** The stages [gs], one over the other, over the signal [s]. *)
Fixpoint chain (gs : list stage) (s : sigid) : M sigid :=
  match gs with
  | [] => ret s
  | g :: gs => d <- build g s ;; chain gs d
  end.

(** What the stages [gs] let through of an emission, one after the
    other. *)
Fixpoint through_all (gs : list stage) (e : emission) : option emission :=
  match gs with
  | [] => Some e
  | g :: gs => through g e ≫= through_all gs
  end.

(** The only subscription on [s] has the observer [o]. *)
Definition sole (st : state) (s : sigid) (o : callbacks) : Prop :=
  exists sg id sub,
    signals st !! s = Some sg /\ _subscriptions sg = [id] /\
    subscriptions st !! id = Some sub /\ observer sub = Some o.

(** The stages [gs] are mounted one over the other from the signal [b]
    up: every signal below the last has the next stage for its only
    subscriber, and the last one the observer [o]. *)
Fixpoint wired (st : state) (b : sigid) (gs : list stage) (o : callbacks) : Prop :=
  match gs with
  | [] => sole st b o
  | g :: gs => sole st b (stage_observer g (S b)) /\ wired st (S b) gs o
  end.

(** The stages [gs] have been built over the source (signal 0) and nothing
    is subscribed yet. *)
Definition chained (st : state) (gs : list stage) : Prop :=
  signals st !! 0 = Some fresh_source /\
  forall i g, gs !! i = Some g ->
    signals st !! S i = Some (Signal (stage_mount g i) RUndefined [] 0 0).

(** [st'] has the registries of [st] and its subscriptions. *)
Definition same_wiring (st st' : state) : Prop :=
  (forall x sg, signals st !! x = Some sg ->
     exists sg', signals st' !! x = Some sg' /\ _subscriptions sg' = _subscriptions sg) /\
  subscriptions st `prefix_of` subscriptions st'.

(** * Properties *)

(** ** Running computations *)

Lemma bind_Ok {A B} (m : M A) (k : A -> M B) st b st' :
  bind m k st = (Ok b, st') ->
  exists a st1, m st = (Ok a, st1) /\ k a st1 = (Ok b, st').
Proof.
  unfold bind. destruct (m st) as [[a|e] st1]; [|done]. intros H. by exists a, st1.
Qed.

Lemma bind_eq {A B} (m : M A) (k : A -> M B) st a st1 :
  m st = (Ok a, st1) -> bind m k st = k a st1.
Proof. intros H. unfold bind. by rewrite H. Qed.

Lemma for_each_app {A} (l1 l2 : list A) body : forall st st1,
  for_each l1 body st = (Ok tt, st1) ->
  for_each (l1 ++ l2) body st = for_each l2 body st1.
Proof.
  induction l1 as [|x l1 IH]; intros st st1 H; simpl in *.
  - by injection H as <-.
  - unfold bind in *. destruct (body x st) as [[[]|e] st']; [|done]. by apply IH.
Qed.

(** ** Relations kept by a computation *)

Section Preserves.
Context (R : state -> state -> Prop) `{!PreOrder R}.

Lemma preserves_ret {A} (a : A) : preserves R (ret a).
Proof. intros st. reflexivity. Qed.

Lemma preserves_raise {A} e : preserves R (@raise A e).
Proof. intros st. reflexivity. Qed.

Lemma preserves_gets {A} (f : state -> A) : preserves R (gets f).
Proof. intros st. reflexivity. Qed.

Lemma preserves_lift {A} (o : option A) : preserves R (lift o).
Proof. destruct o; [apply preserves_ret | apply preserves_raise]. Qed.

Lemma preserves_modify f : (forall st, R st (f st)) -> preserves R (modify f).
Proof. intros H st. apply H. Qed.

Lemma preserves_bind {A B} (m : M A) (k : A -> M B) :
  preserves R m -> (forall a, preserves R (k a)) -> preserves R (bind m k).
Proof.
  intros Hm Hk st. unfold bind. specialize (Hm st).
  destruct (m st) as [[a|e] st1]; simpl in *; [|done].
  etransitivity; [exact Hm | apply Hk].
Qed.

Lemma preserves_for_each {A} (l : list A) (body : A -> M unit) :
  (forall x, preserves R (body x)) -> preserves R (for_each l body).
Proof.
  intros H. induction l as [|x l IH]; simpl.
  - apply preserves_ret.
  - apply preserves_bind; [apply H | intros _; apply IH].
Qed.
End Preserves.

Ltac preserve_step :=
  lazymatch goal with
  | |- preserves _ (ret _) => apply preserves_ret; apply _
  | |- preserves _ (raise _) => apply preserves_raise; apply _
  | |- preserves _ (gets _) => apply preserves_gets; apply _
  | |- preserves _ (lift _) => apply preserves_lift; apply _
  | |- preserves _ (bind _ _) =>
      apply preserves_bind; [apply _ | | intros ?; cbv beta]
  | |- preserves _ (for_each _ _) =>
      apply preserves_for_each; [apply _ | intros ?; cbv beta]
  | |- preserves _ (modify _) => apply preserves_modify; intros ?
  end.

Global Instance same_objects_preorder : PreOrder same_objects.
Proof.
  split.
  - intros st. by split.
  - intros a b c [H1 H2] [H3 H4]. split; congruence.
Qed.

Global Instance same_mounts_preorder : PreOrder same_mounts.
Proof.
  split; [by intros st x|]. intros a b c H1 H2 x. by rewrite H2, H1.
Qed.

Global Instance same_subscriptions_preorder : PreOrder same_subscriptions.
Proof.
  split; [by intros st|]. intros a b c H1 H2. unfold same_subscriptions in *. congruence.
Qed.

Global Instance signal_grows_preorder : PreOrder signal_grows.
Proof.
  split.
  - intros sg. by repeat split.
  - intros a b c (Ha1 & Ha2 & Ha3 & Ha4) (Hb1 & Hb2 & Hb3 & Hb4).
    split; [congruence|]. split; [by etransitivity|]. split; [congruence|].
    intros Hne. destruct (Ha4 Hne) as [Hm Hu].
    assert (_subscriptions b <> []) as Hb.
    { intros Hn. rewrite Hn in Ha2. by apply prefix_nil_inv in Ha2. }
    destruct (Hb4 Hb) as [Hm' Hu']. split; congruence.
Qed.

Global Instance grows_preorder : PreOrder grows.
Proof.
  split.
  - intros st. split; reflexivity.
  - intros a b c [H1 H2] [H3 H4]. split; by etransitivity.
Qed.

Lemma same_objects_cells f st : same_objects st (set_cells f st).
Proof. by split. Qed.

Lemma same_objects_timers f st : same_objects st (set_timers f st).
Proof. by split. Qed.

Lemma same_objects_next_timer n st : same_objects st (set_next_timer n st).
Proof. by split. Qed.

Lemma same_objects_clock n st : same_objects st (set_clock n st).
Proof. by split. Qed.

Lemma same_objects_trace f st : same_objects st (set_trace f st).
Proof. by split. Qed.

Create HintDb signal.

Global Hint Resolve same_objects_cells same_objects_timers same_objects_next_timer
  same_objects_clock same_objects_trace : signal.

Section Frame.
(** A relation that only looks at the objects, not at closure variables, timers or the trace *)
Context (R : state -> state -> Prop) `{!PreOrder R}.
Hypothesis R_frame : forall st st', same_objects st st' -> R st st'.

Lemma preserves_same_objects {A} (m : M A) : preserves same_objects m -> preserves R m.
Proof. intros H st. apply R_frame, H. Qed.
End Frame.

Lemma grows_frame st st' : same_objects st st' -> grows st st'.
Proof. intros [H1 H2]. unfold grows. rewrite H1, H2. split; reflexivity. Qed.

Lemma same_mounts_frame st st' : same_objects st st' -> same_mounts st st'.
Proof. intros [H _] x. unfold mounts. by rewrite H. Qed.

Lemma same_subscriptions_frame st st' : same_objects st st' -> same_subscriptions st st'.
Proof. by intros [_ H]. Qed.

Lemma preserves_grows {A} (m : M A) : preserves same_objects m -> preserves grows m.
Proof. apply preserves_same_objects, grows_frame. Qed.

(** ** Calling a closure changes no signal and no subscription *)

Lemma read_same c : preserves same_objects (read c).
Proof. unfold read. repeat preserve_step. Qed.

Lemma write_same c v : preserves same_objects (write c v).
Proof. unfold write. repeat preserve_step. auto with signal. Qed.

Lemma new_cell_same v : preserves same_objects (new_cell v).
Proof. unfold new_cell. repeat preserve_step. auto with signal. Qed.

Lemma log_same t v : preserves same_objects (log t v).
Proof. unfold log. repeat preserve_step. auto with signal. Qed.

Lemma setTimeout_same a p n : preserves same_objects (setTimeout a p n).
Proof. unfold setTimeout. repeat preserve_step; auto with signal. Qed.

Lemma clearTimeout_same v : preserves same_objects (clearTimeout v).
Proof. unfold clearTimeout. destruct v; repeat preserve_step; auto with signal. Qed.

Lemma get_signal_same s : preserves same_objects (get_signal s).
Proof. unfold get_signal. repeat preserve_step. Qed.

Lemma get_subscription_same s : preserves same_objects (get_subscription s).
Proof. unfold get_subscription. repeat preserve_step. Qed.

Lemma method_same o k : preserves same_objects (method o k).
Proof. unfold method. destruct o as [o|]; [destruct (member o k)|]; repeat preserve_step. Qed.

Global Hint Resolve read_same write_same new_cell_same log_same setTimeout_same
  clearTimeout_same get_signal_same get_subscription_same method_same : signal.

Lemma onComplete_same invoke count len d :
  (forall cb v, preserves same_objects (invoke cb v)) ->
  preserves same_objects (onComplete invoke count len d).
Proof.
  intros H. unfold onComplete. preserve_step; [auto with signal|].
  destruct a; repeat preserve_step; auto with signal.
  case_decide; [apply H | preserve_step].
Qed.

Lemma onNext_same invoke as_ len d a index :
  (forall cb v, preserves same_objects (invoke cb v)) ->
  preserves same_objects (onNext invoke as_ len d a index).
Proof.
  intros H. unfold onNext. preserve_step; [auto with signal|].
  preserve_step.
  { destruct a0; repeat preserve_step; auto with signal. }
  preserve_step; [auto with signal|].
  case_decide; repeat preserve_step; auto with signal.
Qed.

Lemma call_same fuel : forall cb v, preserves same_objects (call fuel cb v).
Proof.
  induction fuel as [|fuel IH]; intros cb v; simpl; [preserve_step|].
  destruct cb; unfold property;
    try (repeat preserve_step; auto with signal; fail).
  - preserve_step; [auto with signal|]. preserve_step.
    unfold notify. repeat preserve_step; auto with signal.
  - destruct (p v); [apply IH | preserve_step].
  - by apply onComplete_same.
  - by apply onNext_same.
  - by apply onComplete_same.
  - destruct (p v); [apply IH | preserve_step].
Qed.

Lemma call_grows fuel cb v : preserves grows (call fuel cb v).
Proof. apply preserves_grows, call_same. Qed.

Lemma run_unmount_same u : preserves same_objects (run_unmount u).
Proof. destruct u; simpl; repeat preserve_step; auto with signal. Qed.

(** ** Equations of the broadcast handlers *)

Lemma call_handler fuel s k v st sg :
  signals st !! s = Some sg ->
  call (S fuel) (CbHandler s k) v st
  = for_each (_subscriptions sg) (notify (call fuel) k v) st.
Proof.
  intros H. simpl. unfold get_signal, bind, gets, lift. simpl. by rewrite H.
Qed.

Lemma notify_eq invoke k v id st sub o f :
  subscriptions st !! id = Some sub -> observer sub = Some o -> member o k = Some f ->
  notify invoke k v id st = invoke f (handler_argument k v) st.
Proof.
  intros Hs Ho Hm. unfold notify, get_subscription, bind, gets, lift. simpl.
  rewrite Hs. simpl. rewrite Ho. simpl. by rewrite Hm.
Qed.

Lemma notify_missing invoke k v id st sub o :
  subscriptions st !! id = Some sub -> observer sub = Some o -> member o k = None ->
  notify invoke k v id st = (Stop TypeError, st).
Proof.
  intros Hs Ho Hm. unfold notify, get_subscription, bind, gets, lift. simpl.
  rewrite Hs. simpl. rewrite Ho. simpl. by rewrite Hm.
Qed.

(** A broadcast stops at the first subscription whose observer lacks the
    callback. *)
Lemma broadcast_missing fuel s k v st sg id ids sub o :
  signals st !! s = Some sg -> _subscriptions sg = id :: ids ->
  subscriptions st !! id = Some sub -> observer sub = Some o -> member o k = None ->
  call (S fuel) (CbHandler s k) v st = (Stop TypeError, st).
Proof.
  intros Hsg Hids Hs Ho Hm. rewrite (call_handler _ _ _ _ _ _ Hsg), Hids.
  cbn [for_each]. unfold bind. by erewrite notify_missing.
Qed.

(** ** Equations of subscribe *)

Lemma subscribe_stuck fuel this a st :
  signals st !! this = None ->
  subscribe (S fuel) this a st = (Stop Stuck, registered st this a).
Proof.
  intros Hsg. simpl. unfold bind, new_subscription, update_signal, get_signal,
    bind, gets, modify, ret. simpl.
  rewrite list_lookup_alter_eq, Hsg. done.
Qed.

Lemma subscribe_later fuel this a st sg :
  signals st !! this = Some sg -> _subscriptions sg <> [] ->
  subscribe (S fuel) this a st = (Ok (length (subscriptions st)), registered st this a).
Proof.
  intros Hsg Hne. simpl. unfold bind, new_subscription, update_signal, get_signal,
    bind, gets, modify, ret. simpl.
  rewrite list_lookup_alter_eq, Hsg. simpl.
  case_decide as Hlen; [|done].
  rewrite length_app in Hlen. simpl in Hlen.
  destruct (_subscriptions sg); [done | simpl in Hlen; lia].
Qed.

Lemma subscribe_first fuel this a st sg :
  signals st !! this = Some sg -> _subscriptions sg = [] ->
  subscribe (S fuel) this a st =
    match run_mount (subscribe fuel) (call fuel) this (_mount sg)
            (set_signals (alter count_mount this) (registered st this a)) with
    | (Ok r, st') =>
        (Ok (length (subscriptions st)), set_signals (alter (with_unmount r) this) st')
    | (Stop e, st') => (Stop e, st')
    end.
Proof.
  intros Hsg He. simpl. unfold bind at 1 2 3. unfold new_subscription, update_signal, get_signal,
    bind at 1 2 3, gets, modify, ret. simpl.
  rewrite list_lookup_alter_eq, Hsg. simpl. rewrite He. simpl.
  unfold bind. simpl. unfold registered.
  destruct (run_mount _ _ _ _ _) as [[r|e] st']; done.
Qed.

Lemma registry_registered st this a sg :
  signals st !! this = Some sg ->
  registry (registered st this a) this = _subscriptions sg ++ [length (subscriptions st)].
Proof.
  intros Hsg. unfold registry, registered. simpl.
  by rewrite list_lookup_alter_eq, Hsg.
Qed.

(** ** Subscribing only lets the store grow *)

Lemma grows_alter st st' this f :
  grows st st' ->
  (forall x y, signals st !! this = Some x -> signal_grows x y -> signal_grows x (f y)) ->
  grows st (set_signals (alter f this) st').
Proof.
  intros [H1 H2] Hf. split; [done|]. simpl.
  apply Forall2_alter_r; [done|]. intros x y Hx _. by apply Hf.
Qed.

Lemma signal_grows_add x y id :
  signal_grows x y -> signal_grows x (with_subscriptions (fun l => l ++ [id]) y).
Proof.
  intros (Hm & Hp & Hu & Hk). split; [done|]. split; [by apply prefix_app_r|].
  split; done.
Qed.

Lemma signal_grows_from_empty x y y' :
  _subscriptions x = [] -> signal_grows x y ->
  _mount y' = _mount y -> _subscriptions y `prefix_of` _subscriptions y' ->
  unmounted y' = unmounted y -> signal_grows x y'.
Proof.
  intros He (Hm & Hp & Hu & Hk) Hm' Hp' Hu'.
  split; [congruence|]. split; [by etransitivity|]. split; [congruence|].
  intros Hne. by destruct Hne.
Qed.

Lemma run_mount_grows sub invoke self m :
  (forall s a, preserves grows (sub s a)) ->
  (forall cb v, preserves grows (invoke cb v)) ->
  preserves grows (run_mount sub invoke self m).
Proof.
  intros Hsub Hinv.
  destruct m; simpl; repeat preserve_step;
    auto using preserves_grows with signal.
Qed.

Lemma grows_registered st this a : grows st (registered st this a).
Proof.
  apply grows_alter.
  - split; simpl; [by apply prefix_app_r | reflexivity].
  - intros x y _. apply signal_grows_add.
Qed.

Lemma subscribe_grows fuel : forall this a, preserves grows (subscribe fuel this a).
Proof.
  induction fuel as [|fuel IH]; intros this a st; [reflexivity|].
  destruct (signals st !! this) as [sg|] eqn:Hsg.
  2:{ rewrite (subscribe_stuck _ _ _ _ Hsg). apply grows_registered. }
  destruct (decide (_subscriptions sg = [])) as [He|Hne].
  2:{ rewrite (subscribe_later _ _ _ _ _ Hsg Hne). apply grows_registered. }
  rewrite (subscribe_first _ _ _ _ _ Hsg He).
  (* the signal had no subscriber: the mount and the assignment of
     [_unmount] are allowed *)
  assert (forall f st',
            (forall y, _mount (f y) = _mount y /\
                       _subscriptions (f y) = _subscriptions y /\
                       unmounted (f y) = unmounted y) ->
            grows st st' -> grows st (set_signals (alter f this) st')) as Hset.
  { intros f st' Hf Hg. apply grows_alter; [done|]. intros x y Hx Hxy.
    rewrite Hsg in Hx. injection Hx as <-. destruct (Hf y) as (Hm & Hs & Hu).
    apply (signal_grows_from_empty _ y); [done..| by rewrite Hs | done]. }
  set (st3 := set_signals (alter count_mount this) _).
  assert (grows st st3) as H3 by (by apply Hset; [|apply grows_registered]).
  pose proof (run_mount_grows (subscribe fuel) (call fuel) this (_mount sg)
                IH (call_grows fuel) st3) as H4.
  destruct (run_mount _ _ _ _ st3) as [[r|e] st4]; simpl in *.
  - apply Hset; [done|]. by etransitivity.
  - by etransitivity.
Qed.

Lemma run_mount_grows_at fuel self m st :
  grows st (run_mount (subscribe fuel) (call fuel) self m st).2.
Proof. apply run_mount_grows; [apply subscribe_grows | apply call_grows]. Qed.

Lemma grows_lookup st st' x sg :
  grows st st' -> signals st !! x = Some sg ->
  exists sg', signals st' !! x = Some sg' /\ signal_grows sg sg'.
Proof. intros [_ H] Hx. by eapply Forall2_lookup_l. Qed.

Lemma grows_lookup_None st st' x :
  grows st st' -> signals st !! x = None -> signals st' !! x = None.
Proof.
  intros [_ H] Hx. apply lookup_ge_None. apply lookup_ge_None in Hx.
  by rewrite <-(Forall2_length _ _ _ H).
Qed.

Lemma grows_registry st st' x :
  grows st st' -> registry st x `prefix_of` registry st' x.
Proof.
  intros H. unfold registry. destruct (signals st !! x) as [sg|] eqn:Hx.
  - destruct (grows_lookup _ _ _ _ H Hx) as (sg' & -> & Hg). apply Hg.
  - apply prefix_nil.
Qed.

Lemma grows_mounts st st' x :
  grows st st' -> registry st x <> [] -> mounts st' x = mounts st x.
Proof.
  intros H. unfold registry, mounts. destruct (signals st !! x) as [sg|] eqn:Hx; [|done].
  destruct (grows_lookup _ _ _ _ H Hx) as (sg' & -> & Hg). intros Hne. by apply Hg.
Qed.

Lemma grows_unmounts st st' x :
  grows st st' -> unmounts st' x = unmounts st x.
Proof.
  intros H. unfold unmounts. destruct (signals st !! x) as [sg|] eqn:Hx.
  - destruct (grows_lookup _ _ _ _ H Hx) as (sg' & -> & Hg). apply Hg.
  - by rewrite (grows_lookup_None _ _ _ H Hx).
Qed.

Lemma grows_nonempty st st' x :
  grows st st' -> registry st x <> [] -> registry st' x <> [].
Proof.
  intros H Hne He. pose proof (grows_registry _ _ x H) as Hp.
  rewrite He in Hp. by apply prefix_nil_inv in Hp.
Qed.

(** ** What a subscribe leaves behind *)

Lemma subscribe_inv fuel this a st id st' :
  subscribe fuel this a st = (Ok id, st') ->
  exists sg, signals st !! this = Some sg /\ id = length (subscriptions st) /\
    ((_subscriptions sg <> [] /\ st' = registered st this a) \/
     (_subscriptions sg = [] /\ exists fuel' r st4,
        fuel = S fuel' /\
        run_mount (subscribe fuel') (call fuel') this (_mount sg)
          (set_signals (alter count_mount this) (registered st this a)) = (Ok r, st4) /\
        st' = set_signals (alter (with_unmount r) this) st4)).
Proof.
  destruct fuel as [|fuel]; [done|]. intros Hrun.
  destruct (signals st !! this) as [sg|] eqn:Hsg.
  2:{ by rewrite subscribe_stuck in Hrun. }
  exists sg. split; [done|].
  destruct (decide (_subscriptions sg = [])) as [He|Hne].
  - rewrite (subscribe_first _ _ _ _ _ Hsg He) in Hrun.
    destruct (run_mount _ _ _ _ _) as [[r|e] st4] eqn:Hm; [|done].
    injection Hrun as <- <-. split; [done|]. right. split; [done|].
    by exists fuel, r, st4.
  - rewrite (subscribe_later _ _ _ _ _ Hsg Hne) in Hrun. injection Hrun as <- <-.
    split; [done|]. by left.
Qed.

Lemma registry_alter_same st this f :
  (forall sg, _subscriptions (f sg) = _subscriptions sg) ->
  forall x, registry (set_signals (alter f this) st) x = registry st x.
Proof.
  intros Hf x. unfold registry. simpl.
  destruct (decide (this = x)) as [->|Hne].
  - rewrite list_lookup_alter_eq. destruct (signals st !! x); simpl; [apply Hf|done].
  - by rewrite list_lookup_alter_ne.
Qed.

Lemma unmounts_alter_same st this f :
  (forall sg, unmounted (f sg) = unmounted sg) ->
  forall x, unmounts (set_signals (alter f this) st) x = unmounts st x.
Proof.
  intros Hf x. unfold unmounts. simpl.
  destruct (decide (this = x)) as [->|Hne].
  - rewrite list_lookup_alter_eq. destruct (signals st !! x); simpl; [apply Hf|done].
  - by rewrite list_lookup_alter_ne.
Qed.

Lemma subscribe_adds fuel this a st id st' :
  subscribe fuel this a st = (Ok id, st') ->
  subscriptions st' !! id = Some (Subscription (normalize a) this false) /\
  length (registry st this) < length (registry st' this).
Proof.
  intros Hrun.
  destruct (subscribe_inv _ _ _ _ _ _ Hrun) as (sg & Hsg & -> & Hcase).
  assert (subscriptions (registered st this a) !! length (subscriptions st)
          = Some (Subscription (normalize a) this false)) as Hnew.
  { unfold registered. simpl. by rewrite lookup_app_r, Nat.sub_diag. }
  assert (registry st this = _subscriptions sg) as Hreg.
  { unfold registry. by rewrite Hsg. }
  pose proof (registry_registered _ _ a _ Hsg) as Hreg1.
  destruct Hcase as [[Hne ->]|(He & fuel' & r & st4 & -> & Hm & ->)].
  - split; [done|]. rewrite Hreg, Hreg1, length_app. simpl. lia.
  - pose proof (run_mount_grows_at fuel' this (_mount sg)
                  (set_signals (alter count_mount this) (registered st this a))) as Hg.
    rewrite Hm in Hg. simpl in Hg.
    split.
    + simpl. destruct Hg as [Hp _]. by apply (prefix_lookup_Some _ _ _ _ Hnew).
    + rewrite registry_alter_same by done.
      pose proof (grows_registry _ _ this Hg) as Hp.
      rewrite registry_alter_same in Hp by done.
      apply prefix_length in Hp. rewrite Hreg1, length_app in Hp. simpl in Hp.
      rewrite Hreg. lia.
Qed.

Lemma subscribe_mounts fuel this a st id st' :
  subscribe fuel this a st = (Ok id, st') ->
  registry st' this <> [] /\
  mounts st' this =
    (if decide (registry st this = []) then S (mounts st this) else mounts st this).
Proof.
  destruct fuel as [|fuel]; [done|]. intros Hrun.
  destruct (signals st !! this) as [sg|] eqn:Hsg.
  2:{ by rewrite subscribe_stuck in Hrun. }
  assert (registry st this = _subscriptions sg) as Hreg.
  { unfold registry. by rewrite Hsg. }
  assert (mounts st this = mounted sg) as Hmnt.
  { unfold mounts. by rewrite Hsg. }
  rewrite Hreg.
  destruct (decide (_subscriptions sg = [])) as [He|Hne].
  - rewrite (subscribe_first _ _ _ _ _ Hsg He) in Hrun.
    set (st3 := set_signals (alter count_mount this) _) in Hrun.
    pose proof (run_mount_grows (subscribe fuel) (call fuel) this (_mount sg)
                  (subscribe_grows fuel) (call_grows fuel) st3) as Hg.
    destruct (run_mount _ _ _ _ st3) as [[r|e] st4]; [|done].
    injection Hrun as <- <-. simpl in Hg.
    assert (registry st3 this = [length (subscriptions st)]) as H3.
    { unfold registry, st3, registered. simpl.
      rewrite !list_lookup_alter_eq, Hsg. simpl. by rewrite He. }
    assert (mounts st3 this = S (mounted sg)) as H3'.
    { unfold mounts, st3, registered. simpl.
      by rewrite !list_lookup_alter_eq, Hsg. }
    assert (registry st3 this <> []) as Hne by (by rewrite H3).
    pose proof (grows_nonempty _ _ _ Hg Hne) as Hne4.
    pose proof (grows_mounts _ _ _ Hg Hne) as Hm4.
    unfold registry, mounts in *. simpl.
    rewrite list_lookup_alter_eq.
    destruct (signals st4 !! this) as [sg4|]; simpl in *; [|done].
    split; [done|]. congruence.
  - rewrite (subscribe_later _ _ _ _ _ Hsg Hne) in Hrun. injection Hrun as <- <-.
    rewrite (registry_registered _ _ _ _ Hsg).
    split; [by destruct (_subscriptions sg)|].
    unfold mounts, registered. simpl. by rewrite list_lookup_alter_eq, Hsg.
Qed.

Lemma subscribe_all_mounted fuel this l : forall st ids st',
  registry st this <> [] ->
  subscribe_all fuel this l st = (Ok ids, st') ->
  registry st' this <> [] /\ mounts st' this = mounts st this.
Proof.
  induction l as [|a l IH]; intros st ids st' Hne Hrun; simpl in Hrun.
  - by injection Hrun as <- <-.
  - apply bind_Ok in Hrun as (id & st1 & H1 & Hrun).
    apply bind_Ok in Hrun as (ids' & st2 & H2 & Hrun).
    injection Hrun as <- <-.
    apply subscribe_mounts in H1 as [Hne1 Hm1].
    rewrite decide_False in Hm1 by done.
    destruct (IH _ _ _ Hne1 H2) as [Hne2 Hm2]. split; [done|congruence].
Qed.

(** ** Equations of the disposer *)

Lemma disposer_unfold id st sub sg :
  subscriptions st !! id = Some sub ->
  signals st !! owner sub = Some sg ->
  disposer id st =
    if decide (filter (fun x => x <> id) (_subscriptions sg) = [])
    then match _unmount sg with
         | RFunction u =>
             run_unmount u (set_signals (alter count_unmount (owner sub))
                                        (removed st id (owner sub)))
         | _ => (Ok tt, removed st id (owner sub))
         end
    else (Ok tt, removed st id (owner sub)).
Proof.
  intros Hsub Hsg. unfold disposer, get_subscription, bind at 1 2, gets, lift. simpl.
  rewrite Hsub. simpl. unfold bind at 1, update_signal, modify. simpl.
  unfold get_signal, bind at 1 2, gets. simpl.
  rewrite list_lookup_alter_eq, Hsg. simpl.
  destruct (decide (filter _ (_subscriptions sg) = [])) as [He|Hne].
  - rewrite He. simpl. destruct (_unmount sg); try done.
  - rewrite decide_False; [done|]. intros Hl. by apply length_zero_iff_nil in Hl.
Qed.

Lemma same_mounts_alter f this st :
  (forall sg, mounted (f sg) = mounted sg) -> same_mounts st (set_signals (alter f this) st).
Proof.
  intros Hf x. unfold mounts. simpl.
  destruct (decide (this = x)) as [->|Hne].
  - rewrite list_lookup_alter_eq. destruct (signals st !! x); simpl; [apply Hf|done].
  - by rewrite list_lookup_alter_ne.
Qed.

Lemma disposer_mounts id : preserves same_mounts (disposer id).
Proof.
  unfold disposer. preserve_step.
  { apply (preserves_same_objects _ same_mounts_frame). auto with signal. }
  preserve_step.
  { unfold update_signal. preserve_step. by apply same_mounts_alter. }
  preserve_step.
  { apply (preserves_same_objects _ same_mounts_frame). auto with signal. }
  case_decide; [|preserve_step].
  destruct (_unmount a1); try preserve_step.
  - unfold update_signal. preserve_step. by apply same_mounts_alter.
  - apply (preserves_same_objects _ same_mounts_frame), run_unmount_same.
Qed.

Lemma disposer_subscriptions id : preserves same_subscriptions (disposer id).
Proof.
  unfold disposer. preserve_step.
  { apply (preserves_same_objects _ same_subscriptions_frame). auto with signal. }
  preserve_step.
  { unfold update_signal. by preserve_step. }
  preserve_step.
  { apply (preserves_same_objects _ same_subscriptions_frame). auto with signal. }
  case_decide; [|preserve_step].
  destruct (_unmount a1); try preserve_step.
  - unfold update_signal. by preserve_step.
  - apply (preserves_same_objects _ same_subscriptions_frame), run_unmount_same.
Qed.

Lemma registry_removed_ne st id this x :
  x <> this -> registry (removed st id this) x = registry st x.
Proof.
  intros Hne. unfold registry, removed. simpl. by rewrite list_lookup_alter_ne.
Qed.

(** ** Mounting and unmounting *)



(** Against claim C4: a signal whose mount function returned a function is
    subscribed to once and unsubscribed from.  The registry is empty, the
    unmount function has run, and [_unmount] still holds it. *)
Lemma unmount_hook_not_cleared :
  registry (subscribe_unsubscribe 1 initial).2 0 = [] /\
  unmounts (subscribe_unsubscribe 1 initial).2 0 = 1 /\
  is_function (unmount_hook (subscribe_unsubscribe 1 initial).2 0) = true.
Proof. vm_compute. done. Qed.

(** Claim C4, amended.  The disposer removes its subscription from the
    registry and leaves [_unmount] as it was.  It calls the unmount function
    once when the registry has become empty and [_unmount] is a function,
    and does not call it otherwise. *)
Theorem unmount_hook_kept id st sub sg :
  subscriptions st !! id = Some sub ->
  signals st !! owner sub = Some sg ->
  let st' := (disposer id st).2 in
  registry st' (owner sub) = filter (fun x => x <> id) (_subscriptions sg) /\
  unmount_hook st' (owner sub) = _unmount sg /\
  unmounts st' (owner sub) =
    (if decide (registry st' (owner sub) = [])
     then (if is_function (_unmount sg) then S (unmounted sg) else unmounted sg)
     else unmounted sg).
Proof.
  intros Hsub Hsg st'. subst st'. rewrite (disposer_unfold _ _ _ _ Hsub Hsg).
  assert (forall st1, signals st1 = signals (removed st id (owner sub)) ->
            registry st1 (owner sub) = filter (fun x => x <> id) (_subscriptions sg) /\
            unmount_hook st1 (owner sub) = _unmount sg /\
            unmounts st1 (owner sub) = unmounted sg) as Hrem.
  { intros st1 H1. unfold registry, unmount_hook, unmounts. rewrite H1. simpl.
    by rewrite list_lookup_alter_eq, Hsg. }
  destruct (decide (filter _ (_subscriptions sg) = [])) as [He|Hne].
  - destruct (_unmount sg) as [|u|s] eqn:Hu; simpl.
    + destruct (Hrem _ eq_refl) as (-> & -> & ->). by rewrite decide_True.
    + set (st2 := set_signals (alter count_unmount (owner sub)) _).
      destruct (run_unmount_same u st2) as [Hs _].
      unfold registry, unmount_hook, unmounts. rewrite Hs. unfold st2. simpl.
      rewrite !list_lookup_alter_eq, Hsg. simpl. rewrite He.
      rewrite decide_True by done. by rewrite Hu.
    + destruct (Hrem _ eq_refl) as (-> & -> & ->). by rewrite decide_True.
  - simpl. destruct (Hrem _ eq_refl) as (-> & -> & ->). by rewrite decide_False.
Qed.

Lemma unmount_hook_kept_witness :
  registry (disposer 0 (subscribe 1 0 (user 0) mountable).2).2 0 = [] /\
  unmount_hook (disposer 0 (subscribe 1 0 (user 0) mountable).2).2 0 = RFunction UUser /\
  unmounts (disposer 0 (subscribe 1 0 (user 0) mountable).2).2 0 = 1.
Proof.
  apply (unmount_hook_kept 0 (subscribe 1 0 (user 0) mountable).2
           (Subscription (Some (user_observer 0)) 0 false)
           (Signal (MUser [] true) (RFunction UUser) [0] 1 0));
    vm_compute; reflexivity.
Defined.

(** ** Calling a disposer again *)

(** With the mark that the spec describes for
    [Subscription.prototype.unsubscribe], a second call of [unsubscribe]
    changes nothing. *)
Lemma unsubscribe_idempotent id st :
  (unsubscribe id ;;; unsubscribe id) st = unsubscribe id st.
Proof.
  unfold bind at 1.
  destruct (unsubscribe id st) as [[[]|e] st1] eqn:H1; [|done].
  revert H1. unfold unsubscribe at 1.
  unfold get_subscription, bind at 1 2, gets, lift. simpl.
  destruct (subscriptions st !! id) as [sub|] eqn:Hsub; simpl; [|done].
  destruct (closed sub) eqn:Hc.
  - intros [= <-]. unfold unsubscribe, get_subscription, bind, gets, lift. simpl.
    rewrite Hsub. simpl. by rewrite Hc.
  - unfold bind at 1. pose proof (disposer_subscriptions id st) as Hd.
    destruct (disposer id st) as [[[]|e] std]; [|done]. simpl in Hd.
    unfold modify. intros [= <-].
    unfold unsubscribe, get_subscription, bind, gets, lift. simpl.
    rewrite list_lookup_alter_eq, Hd, Hsub. done.
Qed.

Lemma filter_ne_idem (id : nat) (l : list nat) :
  filter (fun x => x <> id) (filter (fun x => x <> id) l) = filter (fun x => x <> id) l.
Proof.
  induction l as [|x l IH]; [done|].
  rewrite (filter_cons _ x l). case_decide as H; [|exact IH].
  rewrite filter_cons_True by done. by rewrite IH.
Qed.

(** The signal of a subscription after its disposer has run. *)
Lemma disposer_signal id st sub sg :
  subscriptions st !! id = Some sub ->
  signals st !! owner sub = Some sg ->
  exists sg',
    signals (disposer id st).2 !! owner sub = Some sg' /\
    _subscriptions sg' = filter (fun x => x <> id) (_subscriptions sg) /\
    _unmount sg' = _unmount sg /\
    unmounted sg' =
      (if decide (filter (fun x => x <> id) (_subscriptions sg) = [])
       then (if is_function (_unmount sg) then S (unmounted sg) else unmounted sg)
       else unmounted sg).
Proof.
  intros Hsub Hsg. rewrite (disposer_unfold _ _ _ _ Hsub Hsg).
  assert (signals (removed st id (owner sub)) !! owner sub
          = Some (with_subscriptions (filter (fun x => x <> id)) sg)) as Hrem.
  { unfold removed. simpl. by rewrite list_lookup_alter_eq, Hsg. }
  destruct (decide (filter _ (_subscriptions sg) = [])) as [He|Hne].
  - destruct (_unmount sg) as [|u|s] eqn:Hu; simpl.
    + eexists. split; [exact Hrem|]. simpl. by rewrite Hu.
    + set (st2 := set_signals (alter count_unmount (owner sub)) _).
      destruct (run_unmount_same u st2) as [Hs _]. rewrite Hs. unfold st2. simpl.
      rewrite !list_lookup_alter_eq, Hsg. simpl.
      eexists. split; [reflexivity|]. simpl. by rewrite Hu.
    + eexists. split; [exact Hrem|]. simpl. by rewrite Hu.
  - simpl. eexists. split; [exact Hrem|]. done.
Qed.




(** Claim C6.  [subscribe] takes a function for the [next] callback and
    turns an argument that is neither a function nor an object into the
    empty observer.  A broadcast does not skip a subscription whose observer
    lacks the callback: it stops with a [TypeError], and the subscriptions
    after it are not notified. *)
Theorem missing_callback_stops_broadcast fuel f v :
  normalize (AFunction f None None) = Some (Observer (Some f) None None) /\
  normalize AOther = Some (Observer None None None) /\
  (broadcast (2 + fuel) [AOther] KNext v initial).1 = Stop TypeError /\
  (broadcast (2 + fuel) [AFunction (CbUser 0) None None] KError v initial).1 = Stop TypeError /\
  (broadcast (2 + fuel) [AFunction (CbUser 0) None None] KComplete v initial).1 = Stop TypeError /\
  (broadcast (2 + fuel) [AOther; user 1] KNext v initial).1 = Stop TypeError /\
  trace (broadcast (2 + fuel) [AOther; user 1] KNext v initial).2 = [].
Proof. vm_compute. done. Qed.

(** ** Combinators do not unsubscribe from their upstream *)

Lemma run_mount_result sub invoke self m st r st' :
  run_mount sub invoke self m st = (Ok r, st') ->
  combinator m = true -> is_function r = false.
Proof.
  intros Hrun Hc. destruct m; try done; simpl in Hrun;
    repeat (apply bind_Ok in Hrun as (? & ? & _ & Hrun));
    by injection Hrun as <- <-.
Qed.

Lemma for_each_subscribe_adds {A} fuel (key : A -> nat) (arg : A -> arguments) l :
  forall st st',
  for_each l (fun x => subscribe fuel (key x) (arg x) ;;; ret tt) st = (Ok tt, st') ->
  grows st st' /\
  forall x, x ∈ l -> length (registry st (key x)) < length (registry st' (key x)).
Proof.
  induction l as [|y l IH]; intros st st' Hrun; simpl in Hrun.
  - injection Hrun as <-. split; [reflexivity|]. intros x Hx. by apply elem_of_nil in Hx.
  - apply bind_Ok in Hrun as ([] & st1 & H1 & Hrun).
    apply bind_Ok in H1 as (id & st1' & H1 & Hret). injection Hret as <-.
    pose proof (subscribe_grows fuel (key y) (arg y) st) as Hg1.
    rewrite H1 in Hg1. simpl in Hg1.
    destruct (IH _ _ Hrun) as [Hg2 Hlen].
    split; [by etransitivity|].
    intros x Hx. apply elem_of_cons in Hx as [->|Hx].
    + apply subscribe_adds in H1 as [_ Hlt].
      pose proof (prefix_length _ _ (grows_registry _ _ (key y) Hg2)). lia.
    + pose proof (prefix_length _ _ (grows_registry _ _ (key x) Hg1)).
      specialize (Hlen x Hx). lia.
Qed.

Lemma snd_imap_pair {A} (l : list A) : forall g : nat -> nat,
  snd <$> imap (fun i x => (g i, x)) l = l.
Proof.
  induction l as [|x l IH]; intros g; simpl; [done|].
  f_equal. apply (IH (g ∘ S)).
Qed.

Lemma run_mount_subscribes fuel self m st r st' :
  run_mount (subscribe fuel) (call fuel) self m st = (Ok r, st') ->
  forall u, u ∈ upstreams m -> length (registry st u) < length (registry st' u).
Proof.
  intros Hrun u Hu.
  assert (forall s a (st1 : state) id,
            grows st st1 -> subscribe fuel s a st1 = (Ok id, st') -> u = s ->
            length (registry st u) < length (registry st' u)) as Hone.
  { intros s a st1 id Hg Hs ->. apply subscribe_adds in Hs as [_ Hlt].
    pose proof (prefix_length _ _ (grows_registry _ _ s Hg)). lia. }
  destruct m; cbv beta iota delta [run_mount] in Hrun; simpl in Hu;
    try (apply list_elem_of_singleton in Hu);
    try (by apply elem_of_nil in Hu);
    try (apply bind_Ok in Hrun as (? & ? & H1 & Hrun);
         injection Hrun as <- <-; by eapply (Hone _ _ st)).
  - apply bind_Ok in Hrun as (acc & st1 & H1 & Hrun).
    apply bind_Ok in Hrun as ([] & st2 & H2 & Hrun).
    apply bind_Ok in Hrun as (id & st3 & H3 & Hrun). injection Hrun as <- <-.
    eapply (Hone _ _ st2); [|done..].
    etransitivity.
    + pose proof (preserves_grows _ (read_same a) st) as Hg. by rewrite H1 in Hg.
    + pose proof (call_grows fuel (CbHandler self KNext) acc st1) as Hg. by rewrite H2 in Hg.
  - apply bind_Ok in Hrun as (c & st1 & H1 & Hrun).
    apply bind_Ok in Hrun as ([] & st2 & H2 & Hrun). injection Hrun as <- <-.
    pose proof (preserves_grows _ (new_cell_same (VNum 0)) st) as Hg. rewrite H1 in Hg.
    apply (for_each_subscribe_adds fuel (fun s => s)) in H2 as [_ Hlen].
    pose proof (prefix_length _ _ (grows_registry _ _ u Hg)).
    specialize (Hlen u Hu). simpl in *. lia.
  - apply bind_Ok in Hrun as (c & st1 & H1 & Hrun).
    apply bind_Ok in Hrun as (c' & st2 & H2 & Hrun).
    apply bind_Ok in Hrun as ([] & st3 & H3 & Hrun). injection Hrun as <- <-.
    pose proof (preserves_grows _ (new_cell_same VNull) st) as Hg1. rewrite H1 in Hg1.
    pose proof (preserves_grows _ (new_cell_same (VNum 0)) st1) as Hg2. rewrite H2 in Hg2.
    apply (for_each_subscribe_adds fuel snd) in H3 as [_ Hlen].
    assert (exists x, x ∈ imap pair (this :: ss) /\ snd x = u) as (x & Hx & <-).
    { rewrite <-(snd_imap_pair (this :: ss) (fun i => i)) in Hu.
      apply list_elem_of_fmap in Hu as (x & -> & Hx). by exists x. }
    pose proof (prefix_length _ _ (grows_registry _ _ (snd x) Hg1)).
    pose proof (prefix_length _ _ (grows_registry _ _ (snd x) Hg2)).
    specialize (Hlen x Hx). simpl in *. lia.
  - apply bind_Ok in Hrun as (acc & st1 & H1 & Hrun).
    apply bind_Ok in Hrun as ([] & st2 & H2 & Hrun).
    apply bind_Ok in Hrun as (id & st3 & H3 & Hrun). injection Hrun as <- <-.
    eapply (Hone _ _ st2); [|done..].
    etransitivity.
    + pose proof (preserves_grows _ (read_same a) st) as Hg. by rewrite H1 in Hg.
    + pose proof (call_grows fuel (CbEmit (emit self) KNext) acc st1) as Hg.
      by rewrite H2 in Hg.
Qed.

(** Claim C10.  Let [d] be a map, filter, fold, scan, merge or zip signal
    without subscriber, and let a [subscribe] on it return.  The value that
    its mount function returned is not a function; the mount has added a
    subscription to every upstream signal; and the disposer of the new
    subscription returns without calling an unmount function and leaves
    the registry of every upstream signal as it is. *)
Theorem combinator_teardown_keeps_upstream fuel st d sg a id st' :
  signals st !! d = Some sg ->
  combinator (_mount sg) = true ->
  _subscriptions sg = [] ->
  d ∉ upstreams (_mount sg) ->
  subscribe fuel d a st = (Ok id, st') ->
  is_function (unmount_hook st' d) = false /\
  (disposer id st').1 = Ok tt /\
  unmounts (disposer id st').2 d = unmounts st d /\
  forall u, u ∈ upstreams (_mount sg) ->
    length (registry st u) < length (registry st' u) /\
    registry (disposer id st').2 u = registry st' u.
Proof.
  intros Hsg Hc He Hd Hrun.
  pose proof (subscribe_grows fuel d a st) as Hg. rewrite Hrun in Hg. simpl in Hg.
  destruct (subscribe_adds _ _ _ _ _ _ Hrun) as [Hsub _].
  destruct (subscribe_inv _ _ _ _ _ _ Hrun) as (sg' & Hsg' & -> & Hcase).
  rewrite Hsg in Hsg'. injection Hsg' as <-.
  destruct Hcase as [[Hne _]|(_ & fuel' & r & st4 & -> & Hm & ->)]; [done|].
  set (st3 := set_signals (alter count_mount d) _) in Hm.
  pose proof (run_mount_result _ _ _ _ _ _ _ Hm Hc) as Hr.
  pose proof (run_mount_grows_at fuel' d (_mount sg) st3) as Hg3.
  rewrite Hm in Hg3. simpl in Hg3.
  assert (exists sg4, signals st4 !! d = Some sg4) as [sg4 Hsg4].
  { destruct (grows_lookup st3 st4 d (count_mount
       (with_subscriptions (fun l => l ++ [length (subscriptions st)]) sg)) Hg3)
      as (sg4 & H4 & _); [|by exists sg4].
    unfold st3, registered. simpl. by rewrite !list_lookup_alter_eq, Hsg. }
  set (st' := set_signals (alter (with_unmount r) d) st4) in *.
  assert (signals st' !! d = Some (with_unmount r sg4)) as Hsg5.
  { unfold st'. simpl. by rewrite list_lookup_alter_eq, Hsg4. }
  assert (disposer (length (subscriptions st)) st'
          = (Ok tt, removed st' (length (subscriptions st)) d)) as Hdis.
  { rewrite (disposer_unfold _ _ _ _ Hsub Hsg5). simpl.
    case_decide; [|done]. by destruct r. }
  rewrite Hdis. simpl.
  split; [by unfold unmount_hook; rewrite Hsg5|].
  split; [done|]. split.
  - unfold removed. rewrite unmounts_alter_same by done. by apply grows_unmounts.
  - intros u Hu. split.
    + pose proof (run_mount_subscribes _ _ _ _ _ _ Hm u Hu) as Hlt.
      assert (u <> d) as Hne by (by intros ->).
      unfold st'. rewrite registry_alter_same by done.
      unfold st3, registered in Hlt.
      unfold registry in Hlt at 1. simpl in Hlt.
      rewrite !list_lookup_alter_ne in Hlt by done. apply Hlt.
    + apply registry_removed_ne. by intros ->.
Qed.

Lemma combinator_teardown_keeps_upstream_witness :
  is_function (unmount_hook (subscribe 2 1 (user 0) (mapped id)).2 1) = false /\
  (disposer 0 (subscribe 2 1 (user 0) (mapped id)).2).1 = Ok tt /\
  unmounts (disposer 0 (subscribe 2 1 (user 0) (mapped id)).2).2 1
    = unmounts (mapped id) 1 /\
  forall u, u ∈ upstreams (MMap id 0) ->
    length (registry (mapped id) u)
      < length (registry (subscribe 2 1 (user 0) (mapped id)).2 u) /\
    registry (disposer 0 (subscribe 2 1 (user 0) (mapped id)).2).2 u
    = registry (subscribe 2 1 (user 0) (mapped id)).2 u.
Proof.
  apply (combinator_teardown_keeps_upstream 2 (mapped id) 1
           (Signal (MMap id 0) RUndefined [] 0 0) (user 0) 0).
  - vm_compute; reflexivity.
  - reflexivity.
  - reflexivity.
  - intros H. apply list_elem_of_singleton in H. discriminate H.
  - vm_compute; reflexivity.
Defined.

(** ** fold, scan and stateMachine over one source *)

Section Fold.
Variables (f : value -> value -> value) (fuel : nat) (m : mountfn).

Lemma fold_step v acc tr :
  call (4 + fuel) (CbHandler 0 KNext) v (watching m (fold_observer f) acc tr)
  = (Ok tt, watching m (fold_observer f) (f acc v) tr).
Proof. vm_compute. reflexivity. Qed.

Lemma fold_values vs : forall acc tr,
  emits (4 + fuel) 0 (values vs) (watching m (fold_observer f) acc tr)
  = (Ok tt, watching m (fold_observer f) (fold_left f vs acc) tr).
Proof.
  induction vs as [|v vs IH]; intros acc tr; [done|].
  unfold emits, values. simpl map. cbn [for_each].
  erewrite bind_eq; [|apply fold_step]. apply IH.
Qed.

Lemma fold_completes acc :
  emits (4 + fuel) 0 completes (watching m (fold_observer f) acc [])
  = (Ok tt, watching m (fold_observer f) acc [(on_next 0, acc); (on_complete 0, VUndef)]).
Proof. vm_compute. reflexivity. Qed.

Lemma observe_fold a mk vs :
  setup (4 + fuel) mk initial = (Ok (0, 1, 0), watching m (fold_observer f) a []) ->
  observe (4 + fuel) mk (values vs) initial
    = (Ok tt, watching m (fold_observer f) (fold_left f vs a) []) /\
  observe (4 + fuel) mk (values vs ++ completes) initial
    = (Ok tt, watching m (fold_observer f) (fold_left f vs a)
                [(on_next 0, fold_left f vs a); (on_complete 0, VUndef)]).
Proof.
  intros Hs. unfold observe. rewrite !(bind_eq _ _ _ _ _ Hs). simpl fst.
  split; [apply fold_values|].
  unfold emits. erewrite for_each_app; [|apply fold_values]. apply fold_completes.
Qed.

(** The completion callback of the module's fold throws before anything
    has been emitted. *)
Lemma foldC_completes acc tr :
  emits (4 + fuel) 0 completes (watching m (foldC_observer f) acc tr)
  = (Stop TypeError, watching m (foldC_observer f) acc tr).
Proof. vm_compute. reflexivity. Qed.

End Fold.

Lemma setup_fold f a fuel :
  setup (4 + fuel) (Signal.fold f a) initial
  = (Ok (0, 1, 0), watching (MFold f 0 0) (fold_observer f) a []).
Proof. vm_compute. reflexivity. Qed.

Lemma setup_foldC f a fuel :
  setup (4 + fuel) (Combinator.fold f a) initial
  = (Ok (0, 1, 0), watching (MFoldC f 0 0) (foldC_observer f) a []).
Proof. vm_compute. reflexivity. Qed.

Lemma setup_scan f a fuel :
  setup (4 + fuel) (Signal.scan f a) initial
  = (Ok (0, 1, 0), watching (MScan f 0 0) (scan_observer f) a [(on_next 0, a)]).
Proof. vm_compute. reflexivity. Qed.

Lemma setup_stateMachine f a fuel :
  setup (4 + fuel) (Combinator.stateMachine f a) initial
  = (Ok (0, 1, 0), watching (MStateMachineC f 0 0) (stateMachine_observer f) a []).
Proof. vm_compute. reflexivity. Qed.

(** ** The accumulator between two mounts *)

Section Accumulate.
(** A combinator whose callback on the source puts [step a v] into its
    variable [a] for every value [v], whether the combinator has a
    subscriber or not. *)
Variables (fuel : nat) (m : mountfn) (derived : callbacks).
Variable step : value -> value -> value.

Hypothesis step_watching : forall v acc tr, exists tr',
  call (4 + fuel) (CbHandler 0 KNext) v (watching m derived acc tr)
  = (Ok tt, watching m derived (step acc v) tr').
Hypothesis step_unwatched : forall v acc tr,
  call (4 + fuel) (CbHandler 0 KNext) v (unwatched m derived acc tr)
  = (Ok tt, unwatched m derived (step acc v) tr).

Lemma accumulate_watching vs : forall acc tr, exists tr',
  emits (4 + fuel) 0 (values vs) (watching m derived acc tr)
  = (Ok tt, watching m derived (fold_left step vs acc) tr').
Proof.
  induction vs as [|v vs IH]; intros acc tr; [by exists tr|].
  unfold emits, values. simpl map. cbn [for_each fst snd].
  destruct (step_watching v acc tr) as [tr1 H1].
  erewrite bind_eq; [|exact H1]. apply IH.
Qed.

Lemma accumulate_unwatched ws : forall acc tr,
  emits (4 + fuel) 0 (values ws) (unwatched m derived acc tr)
  = (Ok tt, unwatched m derived (fold_left step ws acc) tr).
Proof.
  induction ws as [|v ws IH]; intros acc tr; [done|].
  unfold emits, values. simpl map. cbn [for_each fst snd].
  erewrite bind_eq; [|apply step_unwatched]. apply IH.
Qed.

(** The disposer of the observer leaves the subscription of the combinator
    on the source. *)
Lemma disposer_watching acc tr :
  disposer 0 (watching m derived acc tr) = (Ok tt, unwatched m derived acc tr).
Proof. vm_compute. reflexivity. Qed.

Lemma resumed_eq mk a tr0 vs ws :
  setup (4 + fuel) mk initial = (Ok (0, 1, 0), watching m derived a tr0) ->
  exists tr,
    resumed (4 + fuel) mk vs ws initial
    = (subscribe (4 + fuel) 1 (user 1) ;;; ret tt)
        (unwatched m derived (fold_left step (vs ++ ws) a) tr).
Proof.
  intros Hs. unfold resumed. rewrite (bind_eq _ _ _ _ _ Hs). cbn [fst snd].
  destruct (accumulate_watching vs a tr0) as [tr Hv].
  erewrite bind_eq; [|exact Hv].
  erewrite bind_eq; [|apply disposer_watching].
  erewrite bind_eq; [|apply accumulate_unwatched].
  exists tr. by rewrite fold_left_app.
Qed.

End Accumulate.

Lemma fold_next f fuel m e c v acc tr :
  call (4 + fuel) (CbHandler 0 KNext) v
    (watching m (Observer (Some (CbFoldNext f 0)) e c) acc tr)
  = (Ok tt, watching m (Observer (Some (CbFoldNext f 0)) e c) (f acc v) tr) /\
  call (4 + fuel) (CbHandler 0 KNext) v
    (unwatched m (Observer (Some (CbFoldNext f 0)) e c) acc tr)
  = (Ok tt, unwatched m (Observer (Some (CbFoldNext f 0)) e c) (f acc v) tr).
Proof. split; vm_compute; reflexivity. Qed.

Lemma foldC_values f fuel m vs : forall acc tr,
  emits (4 + fuel) 0 (values vs) (watching m (foldC_observer f) acc tr)
  = (Ok tt, watching m (foldC_observer f) (fold_left f vs acc) tr).
Proof.
  induction vs as [|v vs IH]; intros acc tr; [done|].
  unfold emits, values. simpl map. cbn [for_each fst snd].
  erewrite bind_eq; [|apply fold_next]. apply IH.
Qed.

Lemma scan_next f fuel m v acc tr :
  call (4 + fuel) (CbHandler 0 KNext) v (watching m (scan_observer f) acc tr)
  = (Ok tt, watching m (scan_observer f) (f acc v) (tr ++ [(on_next 0, f acc v)])) /\
  call (4 + fuel) (CbHandler 0 KNext) v (unwatched m (scan_observer f) acc tr)
  = (Ok tt, unwatched m (scan_observer f) (f acc v) tr).
Proof. split; vm_compute; reflexivity. Qed.

Lemma silent_next g fuel m v acc tr :
  call (4 + fuel) (CbHandler 0 KNext) v
    (watching m (stateMachine_observer (silent g)) acc tr)
  = (Ok tt, watching m (stateMachine_observer (silent g)) (g acc v) tr) /\
  call (4 + fuel) (CbHandler 0 KNext) v
    (unwatched m (stateMachine_observer (silent g)) acc tr)
  = (Ok tt, unwatched m (stateMachine_observer (silent g)) (g acc v) tr).
Proof. split; vm_compute; reflexivity. Qed.

(** The second observer subscribes: the combinator is mounted again, and
    its variable is as the first mount and the source left it. *)
Lemma resubscribe_fold f fuel acc tr :
  exists st,
    subscribe (4 + fuel) 1 (user 1) (unwatched (MFold f 0 0) (fold_observer f) acc tr)
    = (Ok 2, st) /\
    registry st 1 = [2] /\ mounts st 1 = 2 /\ cells st !! 0 = Some acc.
Proof. eexists. split; [vm_compute; reflexivity|]. done. Qed.

Lemma resubscribe_foldC f fuel acc tr :
  exists st,
    subscribe (4 + fuel) 1 (user 1) (unwatched (MFoldC f 0 0) (foldC_observer f) acc tr)
    = (Ok 2, st) /\
    registry st 1 = [2] /\ mounts st 1 = 2 /\ cells st !! 0 = Some acc.
Proof. eexists. split; [vm_compute; reflexivity|]. done. Qed.

Lemma resubscribe_scan f fuel acc tr :
  exists st,
    subscribe (4 + fuel) 1 (user 1) (unwatched (MScan f 0 0) (scan_observer f) acc tr)
    = (Ok 2, st) /\
    (registry st 1 = [2] /\ mounts st 1 = 2 /\ cells st !! 0 = Some acc) /\
    trace st = tr ++ [(on_next 1, acc)].
Proof. eexists. split; [vm_compute; reflexivity|]. done. Qed.

Lemma resubscribe_stateMachine f fuel acc tr :
  exists st,
    subscribe (4 + fuel) 1 (user 1)
      (unwatched (MStateMachineC f 0 0) (stateMachine_observer f) acc tr)
    = (Ok 2, st) /\
    registry st 1 = [2] /\ mounts st 1 = 2 /\ cells st !! 0 = Some acc.
Proof. eexists. split; [vm_compute; reflexivity|]. done. Qed.

Lemma resumed_fold f a fuel vs ws :
  continues_from (4 + fuel) (Signal.fold f a) vs ws (fold_left f (vs ++ ws) a).
Proof.
  destruct (resumed_eq fuel (MFold f 0 0) (fold_observer f) f) with
    (mk := Signal.fold f a) (a := a) (tr0 := @nil (nat * value)) (vs := vs) (ws := ws)
    as [tr Hr].
  - intros v acc tr. exists tr. apply fold_next.
  - intros v acc tr. apply fold_next.
  - apply setup_fold.
  - destruct (resubscribe_fold f fuel (fold_left f (vs ++ ws) a) tr) as (st & Hs & H).
    exists st. split; [|exact H]. rewrite Hr. by erewrite bind_eq; [|exact Hs].
Qed.

Lemma resumed_foldC f a fuel vs ws :
  continues_from (4 + fuel) (Combinator.fold f a) vs ws (fold_left f (vs ++ ws) a).
Proof.
  destruct (resumed_eq fuel (MFoldC f 0 0) (foldC_observer f) f) with
    (mk := Combinator.fold f a) (a := a) (tr0 := @nil (nat * value)) (vs := vs) (ws := ws)
    as [tr Hr].
  - intros v acc tr. exists tr. apply fold_next.
  - intros v acc tr. apply fold_next.
  - apply setup_foldC.
  - destruct (resubscribe_foldC f fuel (fold_left f (vs ++ ws) a) tr) as (st & Hs & H).
    exists st. split; [|exact H]. rewrite Hr. by erewrite bind_eq; [|exact Hs].
Qed.

Lemma resumed_scan f a fuel vs ws :
  continues_from (4 + fuel) (Signal.scan f a) vs ws (fold_left f (vs ++ ws) a) /\
  last (trace (resumed (4 + fuel) (Signal.scan f a) vs ws initial).2)
    = Some (on_next 1, fold_left f (vs ++ ws) a).
Proof.
  destruct (resumed_eq fuel (MScan f 0 0) (scan_observer f) f) with
    (mk := Signal.scan f a) (a := a) (tr0 := [(on_next 0, a)]) (vs := vs) (ws := ws)
    as [tr Hr].
  - intros v acc tr. eexists. apply scan_next.
  - intros v acc tr. apply scan_next.
  - apply setup_scan.
  - destruct (resubscribe_scan f fuel (fold_left f (vs ++ ws) a) tr) as (st & Hs & H & Ht).
    assert (resumed (4 + fuel) (Signal.scan f a) vs ws initial = (Ok tt, st)) as Hrun.
    { rewrite Hr. by erewrite bind_eq; [|exact Hs]. }
    split; [by exists st|]. rewrite Hrun. cbn [snd]. rewrite Ht. apply last_snoc.
Qed.

Lemma resumed_stateMachine g a fuel vs ws :
  continues_from (4 + fuel) (Combinator.stateMachine (silent g) a) vs ws
    (fold_left g (vs ++ ws) a).
Proof.
  destruct (resumed_eq fuel (MStateMachineC (silent g) 0 0)
              (stateMachine_observer (silent g)) g) with
    (mk := Combinator.stateMachine (silent g) a) (a := a) (tr0 := @nil (nat * value))
    (vs := vs) (ws := ws) as [tr Hr].
  - intros v acc tr. exists tr. apply silent_next.
  - intros v acc tr. apply silent_next.
  - apply setup_stateMachine.
  - destruct (resubscribe_stateMachine (silent g) fuel (fold_left g (vs ++ ws) a) tr)
      as (st & Hs & H).
    exists st. split; [|exact H]. rewrite Hr. by erewrite bind_eq; [|exact Hs].
Qed.

(** Claim C9.  [Signal.prototype.fold] with one observer, mounted once, with
    any [f], seed [a] and values [vs]: while the source emits [vs] the
    observer receives nothing, and when the source completes it receives
    the folded value once and then the completion; with [+], seed 0 and the
    values 1, 2, 3 it receives 6, also over [Signal.fromArray([1, 2, 3])].
    The [fold] of the combinator module folds the values as well, but when
    the source completes, its completion callback throws a [TypeError] at
    [emit.next(a)], [emit] being the function [nextHandler]: its observer
    receives nothing.  And when the observer of a [Signal.prototype.fold]
    has unsubscribed and a second one subscribed before the source emits,
    both mounts fold every value and both emit at the completion: with 1,
    2, 3 the second observer receives 12 and the completion, twice. *)
Theorem module_fold_throws_at_completion f a vs fuel :
  folds_to (4 + fuel) (Signal.fold f a) vs (fold_left f vs a) /\
  folds_to 4 (Signal.fold add (VNum 0)) [VNum 1; VNum 2; VNum 3] (VNum 6) /\
  trace (observe_array 6 (Signal.fold add (VNum 0)) [VNum 1; VNum 2; VNum 3] initial).2
    = [(on_next 0, VNum 6); (on_complete 0, VUndef)] /\
  (observe (4 + fuel) (Combinator.fold f a) (values vs) initial).1 = Ok tt /\
  cells (observe (4 + fuel) (Combinator.fold f a) (values vs) initial).2 !! 0
    = Some (fold_left f vs a) /\
  (observe (4 + fuel) (Combinator.fold f a) (values vs ++ completes) initial).1
    = Stop TypeError /\
  trace (observe (4 + fuel) (Combinator.fold f a) (values vs ++ completes) initial).2 = [] /\
  trace (remount 4 (Signal.fold add (VNum 0)) []
           (values [VNum 1; VNum 2; VNum 3] ++ completes) initial).2
    = [(on_next 1, VNum 12); (on_complete 1, VUndef);
       (on_next 1, VNum 12); (on_complete 1, VUndef)].
Proof.
  split.
  { destruct (observe_fold f fuel _ a _ vs (setup_fold f a fuel)) as [H1 H2].
    unfold folds_to. by rewrite H1, H2. }
  split; [vm_compute; done|]. split; [vm_compute; reflexivity|].
  assert (observe (4 + fuel) (Combinator.fold f a) (values vs) initial
          = (Ok tt, watching (MFoldC f 0 0) (foldC_observer f) (fold_left f vs a) [])) as Hv.
  { unfold observe. rewrite (bind_eq _ _ _ _ _ (setup_foldC f a fuel)). cbn [fst].
    apply foldC_values. }
  assert (observe (4 + fuel) (Combinator.fold f a) (values vs ++ completes) initial
          = (Stop TypeError,
             watching (MFoldC f 0 0) (foldC_observer f) (fold_left f vs a) [])) as Hc.
  { unfold observe in *. rewrite (bind_eq _ _ _ _ _ (setup_foldC f a fuel)) in *.
    cbn [fst] in *. unfold emits in *.
    erewrite for_each_app; [|exact Hv]. exact (foldC_completes f fuel _ _ _). }
  rewrite Hv, Hc. split; [done|]. split; [done|]. split; [done|]. split; [done|].
  vm_compute. reflexivity.
Qed.



(** ** merge and zip *)

Lemma only_subscriber_same st st' u k :
  same_objects st st' -> only_subscriber st u k -> only_subscriber st' u k.
Proof.
  intros [H1 H2] (sg & s & sub & o & ?). exists sg, s, sub, o. by rewrite H1, H2.
Qed.

Lemma call_only_subscriber fuel st u k v :
  only_subscriber st u k ->
  call (S (S fuel)) (CbHandler u KComplete) v st = bind (call (S fuel) k VUndef) (fun _ => ret tt) st.
Proof.
  intros (sg & s & sub & o & Hsg & Hs & Hsub & Ho & Hk).
  rewrite (call_handler _ _ _ _ _ _ Hsg), Hs. cbn [for_each].
  unfold bind. by erewrite notify_eq.
Qed.

Lemma onComplete_eq invoke count len d st c :
  cells st !! count = Some (VNum c) ->
  onComplete invoke count len d st
  = (if decide (Z.of_nat len < c + 1)%Z
     then invoke (CbHandler d KComplete) VUndef
     else ret tt) (set_cells (<[count := VNum (c + 1)]>) st).
Proof.
  intros Hc. unfold onComplete, read, write, bind, gets, lift, modify. simpl.
  rewrite Hc. simpl. by case_decide.
Qed.

Lemma join_step fuel st u d count len k tag c :
  join_complete count len d k ->
  only_subscriber st u k ->
  only_subscriber st d (CbUser tag) ->
  cells st !! count = Some (VNum c) ->
  call (4 + fuel) (CbHandler u KComplete) VUndef st
  = (Ok tt, after_complete count len tag c st).
Proof.
  intros Hk Hu Hd Hc.
  change (4 + fuel) with (S (S (2 + fuel))).
  rewrite (call_only_subscriber _ _ _ _ _ Hu).
  erewrite bind_eq; [reflexivity|].
  assert (call (S (2 + fuel)) k VUndef st = onComplete (call (2 + fuel)) count len d st) as ->.
  { by destruct Hk as [-> | ->]. }
  rewrite (onComplete_eq _ _ _ _ _ _ Hc).
  unfold after_complete.
  case_decide; [|done].
  set (st1 := set_cells _ st).
  assert (only_subscriber st1 d (CbUser tag)) as Hd1.
  { eapply only_subscriber_same; [|done]. by split. }
  change (2 + fuel) with (S (S fuel)).
  rewrite (call_only_subscriber _ _ _ _ _ Hd1). reflexivity.
Qed.

Lemma after_complete_same count len tag c st :
  same_objects st (after_complete count len tag c st).
Proof. unfold after_complete. case_decide; by split. Qed.

Lemma after_complete_count count len tag c st :
  count < length (cells st) ->
  cells (after_complete count len tag c st) !! count = Some (VNum (c + 1)).
Proof.
  intros H. unfold after_complete. case_decide; simpl; by apply list_lookup_insert_eq.
Qed.

Lemma after_complete_trace count len tag c st :
  trace (after_complete count len tag c st)
  = trace st ++ (if decide (Z.of_nat len < c + 1)%Z then [(tag, VUndef)] else []).
Proof.
  unfold after_complete. case_decide; simpl; [done|]. by rewrite app_nil_r.
Qed.

Lemma join_steps fuel ups d count len k tag order :
  join_complete count len d k ->
  forall c st,
  only_subscriber st d (CbUser tag) ->
  Forall (fun u => only_subscriber st u k) ups ->
  cells st !! count = Some (VNum (Z.of_nat c)) ->
  order ⊆ ups ->
  c + length order <= S len ->
  exists st',
    completes_all (4 + fuel) order st = (Ok tt, st') /\
    cells st' !! count = Some (VNum (Z.of_nat (c + length order))) /\
    trace st' = trace st ++
      (if decide (c <= len /\ c + length order = S len) then [(tag, VUndef)] else []).
Proof.
  intros Hk. induction order as [|u order IH]; intros c st Hd Hups Hc Hsub Hlen.
  - exists st. split; [done|]. rewrite Nat.add_0_r. split; [done|].
    rewrite decide_False by (simpl; lia). by rewrite app_nil_r.
  - assert (only_subscriber st u k) as Hu.
    { rewrite Forall_forall in Hups. apply Hups, Hsub. by left. }
    pose proof (join_step fuel st u d count len k tag _ Hk Hu Hd Hc) as Hstep.
    set (st1 := after_complete count len tag (Z.of_nat c) st) in *.
    pose proof (after_complete_same count len tag (Z.of_nat c) st) as Hsame.
    simpl in Hlen.
    destruct (IH (S c) st1) as (st' & Hrun & Hcount & Htrace).
    + by eapply only_subscriber_same.
    + eapply Forall_impl; [done|]. intros x. by apply only_subscriber_same.
    + unfold st1. rewrite after_complete_count; [f_equal; f_equal; lia|].
      by eapply lookup_lt_Some.
    + intros x Hx. apply Hsub. by right.
    + lia.
    + exists st'. split; [|split].
      * unfold completes_all. cbn [for_each]. by erewrite bind_eq.
      * rewrite Hcount. simpl. do 3 f_equal. lia.
      * rewrite Htrace. unfold st1. rewrite after_complete_trace, <-app_assoc. f_equal.
        simpl. repeat case_decide; try done; lia.
Qed.

Lemma joined_completes_once fuel st ups d count k tag order :
  joined st ups d count k tag ->
  NoDup order -> order ⊆ ups ->
  exists st',
    completes_all (4 + fuel) order st = (Ok tt, st') /\
    cells st' !! count = Some (VNum (Z.of_nat (length order))) /\
    trace st' = trace st ++
      (if decide (length order = length ups) then [(tag, VUndef)] else []).
Proof.
  intros (Hk & Hne & Hc & Hd & Hups) Hnd Hsub.
  assert (length order <= length ups) as Hle.
  { apply submseteq_length, NoDup_submseteq; [done|]. intros x Hx. by apply Hsub. }
  assert (0 < length ups) by (destruct ups; [done | simpl; lia]).
  destruct (join_steps fuel ups d count (length ups - 1) k tag order Hk 0 st)
    as (st' & Hrun & Hcount & Htrace); try done; [simpl; lia|].
  exists st'. split; [done|]. split; [done|]. rewrite Htrace. f_equal.
  repeat case_decide; try done; lia.
Qed.

Lemma sources_eq n : forall st,
  sources n st
  = (Ok (seq (length (signals st)) n),
     set_signals (fun l => l ++ replicate n fresh_source) st).
Proof.
  induction n as [|n IH]; intros st; simpl.
  - unfold ret, set_signals. rewrite app_nil_r. by destruct st.
  - unfold bind, source, Signal.new, bind, gets, modify, ret. simpl.
    rewrite IH. simpl. rewrite length_app. simpl. rewrite Nat.add_1_r.
    f_equal. unfold set_signals. simpl. by rewrite <-app_assoc.
Qed.

Lemma subscribe_source fuel st j a :
  signals st !! j = Some fresh_source ->
  subscribe (S fuel) j a st = (Ok (length (subscriptions st)), subscribed_source st j a).
Proof. intros H. by rewrite (subscribe_first _ _ _ _ _ H). Qed.

Lemma only_subscriber_other st j a u k :
  u <> j -> only_subscriber st u k -> only_subscriber (subscribed_source st j a) u k.
Proof.
  intros Hne (sg & s & sub & o & Hsg & Hs & Hsub & Ho & Hk).
  exists sg, s, sub, o. repeat split; try done.
  - unfold subscribed_source, registered. simpl.
    by rewrite !list_lookup_alter_ne.
  - unfold subscribed_source, registered. simpl.
    rewrite lookup_app_l; [done|]. by eapply lookup_lt_Some.
Qed.

Lemma only_subscriber_new st j a o k :
  signals st !! j = Some fresh_source ->
  normalize a = Some o -> complete o = Some k ->
  only_subscriber (subscribed_source st j a) j k.
Proof.
  intros Hsg Ho Hk.
  exists (with_unmount RUndefined (count_mount (with_subscriptions
            (fun l => l ++ [length (subscriptions st)]) fresh_source))),
    (length (subscriptions st)), (Subscription (normalize a) j false), o.
  repeat split; try done.
  - unfold subscribed_source, registered. simpl.
    by rewrite !list_lookup_alter_eq, Hsg.
  - unfold subscribed_source, registered. simpl.
    by rewrite lookup_app_r, Nat.sub_diag.
Qed.

Lemma joining_loop {A} fuel n d count k (key : A -> nat) (arg : A -> arguments) (l : list A) :
  S n <= d ->
  (forall x, x ∈ l -> exists o, normalize (arg x) = Some o /\ complete o = Some k) ->
  forall j st,
  key <$> l = seq j (length l) ->
  j + length l = S n ->
  joining n d count k j st ->
  exists st',
    for_each l (fun x => subscribe (S fuel) (key x) (arg x) ;;; ret tt) st = (Ok tt, st') /\
    joining n d count k (S n) st'.
Proof.
  intros Hd Harg. induction l as [|x l IH]; intros j st Hkey Hlen Hj.
  - exists st. split; [done|]. simpl in Hlen. by replace (S n) with j by lia.
  - rewrite fmap_cons in Hkey. cbn [length seq] in Hkey, Hlen.
    injection Hkey as Hx Hkey.
    destruct Hj as (Hc & Htr & Hobs & Hlow & Hhigh).
    assert (signals st !! key x = Some fresh_source) as Hsg.
    { apply Hhigh. lia. }
    destruct (Harg x) as (o & Ho & Hk); [by left|].
    destruct (IH (fun y Hy => Harg y (list_elem_of_further _ _ _ Hy)) (S j)
                (subscribed_source st (key x) (arg x)))
      as (st' & Hrun & Hj'); [done | lia | |].
    + split; [done|]. split; [done|]. split; [|split].
      * apply only_subscriber_other; [lia|done].
      * intros u Hu. destruct (decide (u = j)) as [->|Hne].
        -- rewrite <-Hx. by eapply only_subscriber_new.
        -- apply only_subscriber_other; [lia|]. apply Hlow. lia.
      * intros u Hu. unfold subscribed_source, registered. simpl.
        rewrite !list_lookup_alter_ne by lia. apply Hhigh. lia.
    + exists st'. split; [|done]. cbn [for_each].
      unfold bind at 1. unfold bind at 1. rewrite (subscribe_source _ _ _ _ Hsg). done.
Qed.

Lemma only_subscriber_with_unmount st r d u k :
  only_subscriber st u k ->
  only_subscriber (set_signals (alter (with_unmount r) d) st) u k.
Proof.
  intros (sg & s & sub & o & Hsg & Hs & Hsub & Ho & Hk).
  destruct (decide (d = u)) as [->|Hne].
  - exists (with_unmount r sg), s, sub, o. repeat split; try done.
    simpl. by rewrite list_lookup_alter_eq, Hsg.
  - exists sg, s, sub, o. repeat split; try done.
    simpl. by rewrite list_lookup_alter_ne.
Qed.

Lemma joining_with_unmount n d count k st r :
  joining n d count k (S n) st ->
  joining n d count k (S n) (set_signals (alter (with_unmount r) d) st).
Proof.
  intros (Hc & Htr & Hobs & Hlow & Hhigh).
  split; [done|]. split; [done|]. split; [|split].
  - by apply only_subscriber_with_unmount.
  - intros u Hu. by apply only_subscriber_with_unmount, Hlow.
  - intros u Hu. lia.
Qed.

Lemma built_join n m : signals (built n m) !! S n = Some (Signal m RUndefined [] 0 0).
Proof.
  unfold built. cbn [signals].
  rewrite lookup_app_r; rewrite length_replicate; [|done]. by rewrite Nat.sub_diag.
Qed.

Lemma built_source n m u :
  u < S n -> signals (built n m) !! u = Some fresh_source.
Proof.
  intros Hu. unfold built. cbn [signals].
  rewrite lookup_app_l by (by rewrite length_replicate).
  by apply lookup_replicate_2.
Qed.

Lemma join_observed n m :
  only_subscriber
    (set_signals (alter count_mount (S n)) (registered (built n m) (S n) (user 0)))
    (S n) (CbUser (on_complete 0)).
Proof.
  exists (count_mount (with_subscriptions (fun l => l ++ [0]) (Signal m RUndefined [] 0 0))),
    0, (Subscription (Some (user_observer 0)) (S n) false), (user_observer 0).
  repeat split; try done.
  unfold registered. cbn [signals set_signals set_subscriptions subscriptions length].
  by rewrite !list_lookup_alter_eq, built_join.
Qed.

Lemma merge_joined fuel n :
  exists st,
    subscribe (2 + fuel) (S n) (user 0) (built n (MMerge 0 (seq 1 n))) = (Ok 0, st) /\
    joining n (S n) 0 (CbMergeComplete 0 n (S n)) (S n) st.
Proof.
  change (2 + fuel) with (S (S fuel)).
  rewrite (subscribe_first _ _ _ _ _ (built_join n _) eq_refl).
  cbv beta iota delta [run_mount _mount].
  set (st3 := set_signals (alter count_mount (S n)) _).
  set (k := CbMergeComplete 0 n (S n)).
  destruct (joining_loop fuel n (S n) 0 k (fun s => s)
              (fun s => AFunction (CbHandler (S n) KNext) (error (handlers (S n))) (Some k))
              (0 :: seq 1 n) (le_n _)) with (j := 0)
              (st := set_cells (fun l => l ++ [VNum 0]) st3)
    as (st' & Hrun & Hj).
  - intros x _. by eexists.
  - rewrite list_fmap_id. cbn [length]. by rewrite length_seq.
  - cbn [length]. rewrite length_seq. lia.
  - split; [done|]. split; [done|]. split; [|split].
    + destruct (join_observed n (MMerge 0 (seq 1 n))) as (sg & s & sub & o & ?).
      by exists sg, s, sub, o.
    + intros u Hu. lia.
    + intros u Hu. unfold st3, registered.
      cbn [signals set_signals set_subscriptions set_cells].
      rewrite !list_lookup_alter_ne by lia. apply built_source. lia.
  - erewrite bind_eq; [|reflexivity].
    rewrite length_seq.
    erewrite bind_eq; [|apply Hrun].
    eexists. split; [reflexivity|]. by apply joining_with_unmount.
Qed.

Lemma zip_joined fuel n :
  exists st,
    subscribe (2 + fuel) (S n) (user 0) (built n (MZip 0 (seq 1 n))) = (Ok 0, st) /\
    joining n (S n) 1 (CbZipComplete 1 n (S n)) (S n) st.
Proof.
  change (2 + fuel) with (S (S fuel)).
  rewrite (subscribe_first _ _ _ _ _ (built_join n _) eq_refl).
  cbv beta iota delta [run_mount _mount].
  set (st3 := set_signals (alter count_mount (S n)) _).
  set (k := CbZipComplete 1 n (S n)).
  destruct (joining_loop fuel n (S n) 1 k snd
              (fun si => AFunction (CbZipNext 0 si.1 n (S n)) (error (handlers (S n))) (Some k))
              (imap pair (0 :: seq 1 n)) (le_n _)) with (j := 0)
              (st := set_cells (fun l => l ++ [VNum 0]) (set_cells (fun l => l ++ [VNull]) st3))
    as (st' & Hrun & Hj).
  - intros x _. by eexists.
  - assert (snd <$> imap pair (0 :: seq 1 n) = 0 :: seq 1 n) as ->
      by exact (snd_imap_pair (0 :: seq 1 n) (fun i => i)).
    rewrite length_imap. cbn [length]. by rewrite length_seq.
  - rewrite length_imap. cbn [length]. rewrite length_seq. lia.
  - split; [done|]. split; [done|]. split; [|split].
    + destruct (join_observed n (MZip 0 (seq 1 n))) as (sg & s & sub & o & ?).
      by exists sg, s, sub, o.
    + intros u Hu. lia.
    + intros u Hu. unfold st3, registered.
      cbn [signals set_signals set_subscriptions set_cells].
      rewrite !list_lookup_alter_ne by lia. apply built_source. lia.
  - erewrite bind_eq; [|reflexivity].
    erewrite bind_eq; [|reflexivity].
    rewrite length_seq.
    erewrite bind_eq; [|apply Hrun].
    eexists. split; [reflexivity|]. by apply joining_with_unmount.
Qed.

Lemma join_built fuel n order (mk : nat -> list nat -> M nat) m :
  (forall st, mk 0 (seq 1 n) st = Signal.new (Some m) st) ->
  join fuel mk n order initial
  = (subscribe fuel (S n) (user 0) ;;; completes_all fuel order) (built n m).
Proof.
  intros Hmk. unfold join.
  erewrite bind_eq; [|reflexivity].
  erewrite bind_eq; [|apply sources_eq].
  cbn [length signals set_signals initial].
  erewrite bind_eq; [reflexivity|].
  rewrite Hmk. unfold Signal.new, bind, gets, modify, ret.
  cbn [signals set_signals length app]. rewrite length_app, length_replicate.
  reflexivity.
Qed.

Lemma joining_joined n d count k st :
  join_complete count n d k ->
  joining n d count k (S n) st ->
  joined st (seq 0 (S n)) d count k (on_complete 0).
Proof.
  intros Hk (Hc & Htr & Hobs & Hlow & _). unfold joined.
  rewrite length_seq. replace (S n - 1) with n by lia.
  split; [done|]. split; [done|]. split; [done|]. split; [done|].
  apply Forall_forall. intros u Hu. apply Hlow.
  apply elem_of_seq in Hu. lia.
Qed.

(** Against claim C3: a merge and a zip of two sources; the observer
    unsubscribes and a second observer subscribes, which mounts the join
    again, with a second counter and a second completion callback on each
    source beside those of the first mount.  Each source completes once:
    both counters reach 2, and the [complete] callback of the observer is
    called twice. *)
Lemma join_remounted_completes_twice :
  (join_remounted 4 Signal.merge initial).1 = Ok tt /\
  trace (join_remounted 4 Signal.merge initial).2
    = [(on_complete 1, VUndef); (on_complete 1, VUndef)] /\
  (join_remounted 4 Signal.zip initial).1 = Ok tt /\
  trace (join_remounted 4 Signal.zip initial).2
    = [(on_complete 1, VUndef); (on_complete 1, VUndef)].
Proof. vm_compute. done. Qed.

(** Claim C3, amended.  A merge and a zip over [N = n + 1] sources, mounted
    once, with one observer: when the sources listed in [order] complete,
    each at most once, the [complete] callback of the observer has been
    called once if all [N] have completed and not at all otherwise, and the
    counter of this mount holds the number of completions. *)
Theorem join_completes_once fuel n order :
  NoDup order -> order ⊆ seq 0 (S n) ->
  completes_once (4 + fuel) Signal.merge 0 n order /\
  completes_once (4 + fuel) Signal.zip 1 n order.
Proof.
  intros Hnd Hsub. split.
  - destruct (merge_joined (2 + fuel) n) as (st & Hm & Hj).
    assert (trace st = []) as Htr by apply Hj.
    apply joining_joined in Hj; [|by left].
    destruct (joined_completes_once fuel _ _ _ _ _ _ order Hj Hnd Hsub)
      as (st' & Hrun & Hc & Ht).
    exists st'. rewrite (join_built _ _ _ _ (MMerge 0 (seq 1 n))) by done.
    erewrite bind_eq; [|apply Hm]. split; [done|]. split; [done|].
    rewrite Ht, Htr, length_seq. done.
  - destruct (zip_joined (2 + fuel) n) as (st & Hm & Hj).
    assert (trace st = []) as Htr by apply Hj.
    apply joining_joined in Hj; [|by right].
    destruct (joined_completes_once fuel _ _ _ _ _ _ order Hj Hnd Hsub)
      as (st' & Hrun & Hc & Ht).
    exists st'. rewrite (join_built _ _ _ _ (MZip 0 (seq 1 n))) by done.
    erewrite bind_eq; [|apply Hm]. split; [done|]. split; [done|].
    rewrite Ht, Htr, length_seq. done.
Qed.

Lemma join_completes_once_witness :
  completes_once 4 Signal.merge 0 1 [1; 0] /\
  completes_once 4 Signal.zip 1 1 [1; 0].
Proof.
  apply (join_completes_once 0 1 [1; 0]).
  - apply (bool_decide_unpack (NoDup [1; 0])). vm_compute. exact I.
  - intros x Hx. apply elem_of_seq.
    apply elem_of_cons in Hx as [->|Hx]; [lia|].
    apply list_elem_of_singleton in Hx as ->. lia.
Defined.

Lemma zip_round_length len index a :
  len < length (array_set (array len) index a) <-> len <= index.
Proof.
  unfold array_set, array. rewrite length_replicate.
  case_decide.
  - rewrite length_insert, length_replicate. lia.
  - rewrite !length_app, !length_replicate. simpl. lia.
Qed.

(** Claim C2.  [A.zip(B)] does not wait for a full round.  When [B] emits
    first, the observer receives the tuple with the slot of [A] still
    [undefined]; when [A] emits twice before [B], the first value of [A]
    is overwritten and never emitted. *)
Theorem zip_emits_unfilled_round fuel v w1 w2 :
  (zip_two (4 + fuel) [(1, v)] initial).1 = Ok tt /\
  trace (zip_two (4 + fuel) [(1, v)] initial).2 = [(on_next 0, VArr [VUndef; v])] /\
  trace (zip_two (4 + fuel) [(0, w1); (0, w2); (1, v)] initial).2
    = [(on_next 0, VArr [w2; v])].
Proof. vm_compute. done. Qed.

(** ** delay *)

(** Claim C7.  The delay of the combinator module with one observer: the
    source emits two values and completes, which sets three timers for 100
    milliseconds later, and the observer unsubscribes before they are due.
    The unmount function runs and cancels the timer of the second value
    only: the timers of the first value and of the completion stay pending.
    (What they run is [emit.next(a)] and [emit.complete()] with the
    function [nextHandler] for [emit]: when they fire they throw a
    [TypeError], and an observer that has subscribed meanwhile receives
    nothing.)  [Signal.prototype.delay] has no unmount function: its three
    timers stay pending, and they deliver both values and the completion to
    an observer that has subscribed meanwhile. *)
Theorem delay_unmount_leaves_timers fuel v1 v2 :
  timers (scheduled (4 + fuel) (Combinator.delay 100) v1 v2 initial).2
    = [Timer 1 100 (CbEmit (nextHandler 1) KNext) v1;
       Timer 2 100 (CbEmit (nextHandler 1) KNext) v2;
       Timer 3 100 (CbEmit (nextHandler 1) KComplete) VUndef] /\
  let st := (delayed (4 + fuel) (Combinator.delay 100) v1 v2 initial).2 in
  (delayed (4 + fuel) (Combinator.delay 100) v1 v2 initial).1 = Ok tt /\
  registry st 1 = [] /\ unmounts st 1 = 1 /\
  timers st = [Timer 1 100 (CbEmit (nextHandler 1) KNext) v1;
               Timer 3 100 (CbEmit (nextHandler 1) KComplete) VUndef] /\
  (delayed_resubscribed (4 + fuel) (Combinator.delay 100) v1 v2 initial).1
    = Stop TypeError /\
  trace (delayed_resubscribed (4 + fuel) (Combinator.delay 100) v1 v2 initial).2 = [] /\
  let st' := (delayed (4 + fuel) (Signal.delay 100) v1 v2 initial).2 in
  (delayed (4 + fuel) (Signal.delay 100) v1 v2 initial).1 = Ok tt /\
  registry st' 1 = [] /\ unmounts st' 1 = 0 /\
  timers st' = [Timer 1 100 (nextHandler 1) v1; Timer 2 100 (nextHandler 1) v2;
                Timer 3 100 (completeHandler 1) VUndef] /\
  trace (delayed_resubscribed (5 + fuel) (Signal.delay 100) v1 v2 initial).2
    = [(on_next 1, v1); (on_next 1, v2); (on_complete 1, VUndef)].
Proof. vm_compute. done. Qed.

(** ** Broadcasts to client observers *)

Lemma record_nil st : record [] st = st.
Proof. destruct st. unfold record, set_trace. simpl. by rewrite app_nil_r. Qed.

Lemma record_app l1 l2 st : record l2 (record l1 st) = record (l1 ++ l2) st.
Proof. unfold record, set_trace. simpl. by rewrite app_assoc. Qed.

Lemma for_each_notify fuel k v : forall ids tags st,
  heard_by st k ids tags ->
  for_each ids (notify (call (S fuel)) k v) st
  = (Ok tt, record (map (fun tag => (tag, handler_argument k v)) tags) st).
Proof.
  induction ids as [|id ids IH]; intros tags st H.
  - apply Forall2_nil_inv_l in H as ->. simpl. by rewrite record_nil.
  - apply Forall2_cons_inv_l in H as (tag & tags' & (sub & o & Hs & Ho & Hm) & H & ->).
    cbn [for_each]. erewrite bind_eq.
    2:{ erewrite notify_eq; [|done..]. reflexivity. }
    change (log tag (handler_argument k v) st)
      with (Ok tt, record [(tag, handler_argument k v)] st).
    rewrite (IH tags'); [|done]. f_equal.
    apply (record_app [(tag, handler_argument k v)]).
Qed.

(** A broadcast on channel [k] calls the callbacks of the registry in its
    order, each once. *)
Lemma call_heard fuel s k v st sg tags :
  signals st !! s = Some sg ->
  heard_by st k (_subscriptions sg) tags ->
  call (2 + fuel) (CbHandler s k) v st
  = (Ok tt, record (map (fun tag => (tag, handler_argument k v)) tags) st).
Proof.
  intros Hsg H. change (2 + fuel) with (S (S fuel)).
  rewrite (call_handler _ _ _ _ _ _ Hsg). by apply for_each_notify.
Qed.

Lemma observed_heard st s sg os k :
  signals st !! s = Some sg -> observed_by st s os ->
  heard_by st k (_subscriptions sg) (map (tag_of k) os).
Proof.
  intros Hsg (sg' & Hsg' & H). rewrite Hsg in Hsg'. injection Hsg' as <-.
  unfold heard_by. apply Forall2_fmap_r. eapply Forall2_impl; [done|].
  intros id o (sub & Hs & Ho). exists sub, (user_observer o). by destruct k.
Qed.

Lemma observed_by_record st l s os :
  observed_by st s os -> observed_by (record l st) s os.
Proof. done. Qed.

Lemma emits_observed fuel s os es : forall st,
  observed_by st s os ->
  emits (2 + fuel) s es st
  = (Ok tt, record (flat_map (fun e => map (fun o => deliver o e) os) es) st).
Proof.
  induction es as [|[k v] es IH]; intros st H.
  - simpl. by rewrite record_nil.
  - unfold emits. cbn [for_each]. pose proof H as (sg & Hsg & _).
    erewrite bind_eq.
    2:{ apply (call_heard _ _ _ _ _ _ (map (tag_of k) os) Hsg).
        by apply (observed_heard _ s). }
    fold (emits (2 + fuel) s es). rewrite IH; [|by apply observed_by_record].
    rewrite record_app. simpl. by rewrite map_map.
Qed.

(** ** A source and its audience *)

Lemma subscribe_user fuel j :
  subscribe (S fuel) 0 (user j) (audience_state j) = (Ok j, audience_state (S j)).
Proof.
  destruct j as [|j]; [vm_compute; reflexivity|].
  erewrite subscribe_later; [|reflexivity|done].
  unfold audience_state. rewrite (seq_S (S j) 0), map_app.
  unfold registered, set_signals, set_subscriptions, with_subscriptions.
  cbn -[seq]. by rewrite length_map, length_seq.
Qed.

Lemma subscribe_users fuel : forall m j,
  subscribe_all (S fuel) 0 (map user (seq j m)) (audience_state j)
  = (Ok (seq j m), audience_state (j + m)).
Proof.
  induction m as [|m IH]; intros j; simpl.
  - by rewrite Nat.add_0_r.
  - erewrite bind_eq; [|apply subscribe_user].
    erewrite bind_eq; [|apply IH]. by rewrite Nat.add_succ_r.
Qed.

Lemma audience_eq fuel n :
  audience (S fuel) n initial = (Ok 0, audience_state n).
Proof.
  unfold audience. erewrite bind_eq; [|reflexivity].
  erewrite bind_eq; [reflexivity|]. apply (subscribe_users fuel n 0).
Qed.

Lemma audience_lookup n o :
  o < n ->
  subscriptions (audience_state n) !! o
  = Some (Subscription (Some (user_observer o)) 0 false).
Proof.
  intros H. simpl. rewrite list_lookup_fmap, lookup_seq_lt; done.
Qed.

Lemma audience_observed n l st :
  signals st = [Signal (MUser [] false) RUndefined l (Nat.min 1 n) 0] ->
  subscriptions st = subscriptions (audience_state n) ->
  Forall (fun o => o < n) l ->
  observed_by st 0 l.
Proof.
  intros Hs Hsub Hl. eexists. rewrite Hs. split; [reflexivity|]. simpl.
  apply Forall_Forall2_diag. eapply Forall_impl; [done|].
  intros o Ho. eexists. rewrite Hsub. split; [by apply audience_lookup|done].
Qed.


Lemma disposer_audience n i :
  i < n ->
  disposer i (audience_state n) = (Ok tt, removed (audience_state n) i 0).
Proof.
  intros Hi. erewrite disposer_unfold; [|by apply audience_lookup|reflexivity].
  by case_decide.
Qed.



(** ** What subscribe never does *)

Lemma grows_unmount_hook st st' x :
  grows st st' -> registry st x <> [] -> unmount_hook st' x = unmount_hook st x.
Proof.
  intros H. unfold registry, unmount_hook.
  destruct (signals st !! x) as [sg|] eqn:Hx; [|done].
  destruct (grows_lookup _ _ _ _ H Hx) as (sg' & -> & Hg). intros Hne. by apply Hg.
Qed.

(** Property X3.  A call of [subscribe], with everything the mount
    functions it runs do (the subscriptions that combinators take upstream
    and the values that sources emit while they are mounted), whether it
    returns or throws: no registration is removed or reordered in any
    signal, no unmount function is called, and a signal that already had a
    subscriber is not mounted again and keeps its [_unmount]. *)
Theorem subscribe_only_extends fuel this a st s :
  let st' := (subscribe fuel this a st).2 in
  registry st s `prefix_of` registry st' s /\
  unmounts st' s = unmounts st s /\
  (registry st s = [] \/
   mounts st' s = mounts st s /\ unmount_hook st' s = unmount_hook st s).
Proof.
  pose proof (subscribe_grows fuel this a st) as H. simpl.
  split; [by apply grows_registry|]. split; [by apply grows_unmounts|].
  destruct (decide (registry st s = [])) as [|Hne]; [by left|right].
  split; [by apply grows_mounts | by apply grows_unmount_hook].
Qed.

(** ** Sources that emit while they are mounted *)

Lemma deliver_one o es :
  flat_map (fun e => map (fun o => deliver o e) [o]) es = map (deliver o) es.
Proof. induction es as [|e es IH]; simpl; [done|]. by f_equal. Qed.

Lemma registered_lookup st this a sg :
  signals st !! this = Some sg ->
  signals (registered st this a) !! this
  = Some (with_subscriptions (fun l => l ++ [length (subscriptions st)]) sg) /\
  subscriptions (registered st this a) !! length (subscriptions st)
  = Some (Subscription (normalize a) this false).
Proof.
  intros Hsg. unfold registered. simpl. rewrite list_lookup_alter_eq, Hsg. split; [done|].
  by rewrite lookup_app_r, Nat.sub_diag.
Qed.

(** The first subscriber of a signal whose mount function calls its
    handlers as [script] says: it receives the script while [subscribe]
    runs. *)
Lemma subscribe_script fuel st s sg script o :
  signals st !! s = Some sg -> _mount sg = MUser script false ->
  _subscriptions sg = [] ->
  subscribe (3 + fuel) s (user o) st
  = (Ok (length (subscriptions st)),
     set_signals (alter (with_unmount RUndefined) s)
       (record (map (deliver o) script)
          (set_signals (alter count_mount s) (registered st s (user o))))).
Proof.
  intros Hsg Hm He. change (3 + fuel) with (S (2 + fuel)).
  rewrite (subscribe_first _ _ _ _ _ Hsg He), Hm.
  destruct (registered_lookup st s (user o) sg Hsg) as [H1 H2].
  set (st3 := set_signals _ _).
  change (run_mount _ _ s (MUser script false))
    with (emits (2 + fuel) s script ;;; ret RUndefined).
  erewrite bind_eq.
  2:{ apply (emits_observed fuel s [o]). eexists. split.
      - unfold st3, set_signals at 1. cbn [signals].
        by rewrite list_lookup_alter_eq, H1.
      - simpl. rewrite He. simpl. constructor; [|constructor].
        eexists. split; [exact H2|done]. }
  by rewrite deliver_one.
Qed.

Lemma fromArray_eq as_ :
  Signal.fromArray as_ initial
  = (Ok 0, State [Signal (MUser (values as_ ++ completes) false) RUndefined [] 0 0]
               [] [] [] 1 0 []).
Proof. reflexivity. Qed.

(** Property X4.  [Signal.fromArray(as)] emits the elements of [as] and
    completes while its first subscriber is being subscribed: that
    observer receives all of them, in order, and the completion.  An
    observer that subscribes while the first is still subscribed receives
    nothing. *)
Theorem fromArray_serves_first_subscriber fuel as_ :
  (two_subscribers (3 + fuel) (Signal.fromArray as_) initial).1 = Ok tt /\
  trace (two_subscribers (3 + fuel) (Signal.fromArray as_) initial).2
  = map (deliver 0) (values as_ ++ completes) /\
  registry (two_subscribers (3 + fuel) (Signal.fromArray as_) initial).2 0 = [0; 1] /\
  mounts (two_subscribers (3 + fuel) (Signal.fromArray as_) initial).2 0 = 1.
Proof.
  unfold two_subscribers. rewrite (bind_eq _ _ _ _ _ (fromArray_eq as_)).
  erewrite bind_eq; [|by eapply subscribe_script].
  erewrite bind_eq; [|by eapply subscribe_later]. done.
Qed.

(** Property X5.  When its only subscriber has unsubscribed,
    [Signal.fromArray(as)] is mounted again by the next [subscribe]: the new
    observer receives all the elements and the completion again. *)
Theorem fromArray_replays_after_unsubscribe fuel as_ :
  (one_after_the_other (3 + fuel) (Signal.fromArray as_) initial).1 = Ok tt /\
  trace (one_after_the_other (3 + fuel) (Signal.fromArray as_) initial).2
  = map (deliver 0) (values as_ ++ completes)
    ++ map (deliver 1) (values as_ ++ completes) /\
  registry (one_after_the_other (3 + fuel) (Signal.fromArray as_) initial).2 0 = [1] /\
  mounts (one_after_the_other (3 + fuel) (Signal.fromArray as_) initial).2 0 = 2.
Proof.
  unfold one_after_the_other. rewrite (bind_eq _ _ _ _ _ (fromArray_eq as_)).
  erewrite bind_eq; [|by eapply subscribe_script].
  erewrite bind_eq.
  2:{ erewrite disposer_unfold; [|reflexivity..]. simpl. reflexivity. }
  erewrite bind_eq; [|eapply subscribe_script; reflexivity]. done.
Qed.

Lemma subscribe_one_script fuel (mk : M sigid) script :
  mk initial = (Ok 0, State [Signal (MUser script false) RUndefined [] 0 0]
                            [] [] [] 1 0 []) ->
  (subscribe_one (3 + fuel) mk initial).1 = Ok 0 /\
  trace (subscribe_one (3 + fuel) mk initial).2 = map (deliver 0) script.
Proof.
  intros Hmk. unfold subscribe_one. rewrite (bind_eq _ _ _ _ _ Hmk).
  by erewrite subscribe_script.
Qed.

(** Property X6.  The observer of [Signal.of(a)] receives [a] and the
    completion when [a] is truthy; when [a] is [undefined], [null], [0] or
    the empty string it receives the completion only.  The observer of
    [Signal.empty()] receives the completion only. *)
Theorem of_emits_truthy_values_only fuel a :
  (subscribe_one (3 + fuel) (Signal.of_ a) initial).1 = Ok 0 /\
  trace (subscribe_one (3 + fuel) (Signal.of_ a) initial).2
  = (if truthy a then [(on_next 0, a)] else []) ++ [(on_complete 0, VUndef)] /\
  (subscribe_one (3 + fuel) Signal.empty initial).1 = Ok 0 /\
  trace (subscribe_one (3 + fuel) Signal.empty initial).2 = [(on_complete 0, VUndef)].
Proof.
  destruct (subscribe_one_script fuel (Signal.of_ a) _ eq_refl) as [H1 H2].
  destruct (subscribe_one_script fuel Signal.empty _ eq_refl) as [H3 H4].
  rewrite H1, H2, H3, H4. by destruct (truthy a).
Qed.

(** Property X7.  The function that [Signal.fromCallback] hands to [f]
    reports an error when its first argument is neither [undefined] nor
    [null] (also when it is [0] or the empty string) and emits its second
    argument otherwise; the signal never completes. *)
Theorem fromCallback_reports_value_or_error fuel calls :
  (subscribe_one (3 + fuel) (Signal.fromCallback calls) initial).1 = Ok 0 /\
  trace (subscribe_one (3 + fuel) (Signal.fromCallback calls) initial).2
  = map (fun c => match c.1 with
                  | VUndef | VNull => (on_next 0, c.2)
                  | _ => (on_error 0, c.1)
                  end) calls /\
  Forall (fun r => r.1 <> on_complete 0)
    (trace (subscribe_one (3 + fuel) (Signal.fromCallback calls) initial).2).
Proof.
  destruct (subscribe_one_script fuel (Signal.fromCallback calls) _ eq_refl) as [H1 H2].
  rewrite H1, H2. split; [done|]. rewrite map_map.
  assert (forall c : value * value,
            deliver 0 (Signal.node_callback c.1 c.2)
            = match c.1 with
              | VUndef | VNull => (on_next 0, c.2)
              | _ => (on_error 0, c.1)
              end) as Hc by (by intros [[] ?]).
  split.
  - apply map_ext. intros c. apply Hc.
  - apply Forall_forall. intros r Hr. apply list_elem_of_In, in_map_iff in Hr.
    destruct Hr as (c & <- & _). rewrite Hc. by destruct c as [[] ?].
Qed.

Lemma emits_values_heard fuel s sg tags vs : forall st,
  signals st !! s = Some sg ->
  heard_by st KNext (_subscriptions sg) tags ->
  emits (2 + fuel) s (values vs) st
  = (Ok tt, record (flat_map (fun v => map (fun tag => (tag, v)) tags) vs) st).
Proof.
  induction vs as [|v vs IH]; intros st Hsg H.
  - simpl. by rewrite record_nil.
  - unfold emits, values. simpl map. cbn [for_each].
    erewrite bind_eq; [|by apply (call_heard _ _ _ _ _ _ tags Hsg)].
    fold (values vs). fold (emits (2 + fuel) s (values vs)).
    rewrite IH; [|done..]. by rewrite record_app.
Qed.

(** A signal whose mount function emits [vs] and completes, subscribed
    with a function for [next] only: the values are delivered, then the
    completion finds no callback. *)
Lemma subscribe_next_only_script fuel (mk : M sigid) vs :
  mk initial = (Ok 0, State [Signal (MUser (values vs ++ completes) false) RUndefined [] 0 0]
                            [] [] [] 1 0 []) ->
  subscribe_next_only (3 + fuel) mk initial
  = (Stop TypeError,
     State [Signal (MUser (values vs ++ completes) false) RUndefined [0] 1 0]
           [Subscription (Some (Observer (Some (CbUser (on_next 0))) None None)) 0 false]
           [] [] 1 0 (map (pair (on_next 0)) vs)).
Proof.
  intros Hmk. unfold subscribe_next_only. rewrite (bind_eq _ _ _ _ _ Hmk).
  change (3 + fuel) with (S (2 + fuel)).
  erewrite subscribe_first; [|reflexivity..].
  change (run_mount _ _ 0 _)
    with (emits (2 + fuel) 0 (values vs ++ completes) ;;; ret RUndefined).
  unfold bind, emits. erewrite for_each_app.
  2:{ eapply (emits_values_heard fuel 0 _ [on_next 0]); [reflexivity|].
      constructor; [|constructor]. by eexists _, _. }
  cbn [completes for_each fst snd]. unfold bind.
  change (2 + fuel) with (S (S fuel)).
  erewrite broadcast_missing; [|reflexivity..].
  f_equal.
Qed.

(** Property X8.  [Signal.empty], [Signal.of] and [Signal.fromArray] call
    the [complete] handler while they are mounted.  When the first
    subscriber has passed a function for [next] only, that call throws a
    [TypeError] out of [subscribe], after the values have been delivered.
    The subscription stays in the registry and the signal stays mounted:
    an observer that subscribes afterwards receives nothing. *)
Theorem sync_source_throws_without_complete fuel as_ a :
  let st := (subscribe_next_only (3 + fuel) (Signal.fromArray as_) initial).2 in
  (subscribe_next_only (3 + fuel) (Signal.fromArray as_) initial).1 = Stop TypeError /\
  trace st = map (pair (on_next 0)) as_ /\
  registry st 0 = [0] /\ mounts st 0 = 1 /\
  (subscribe (3 + fuel) 0 (user 1) st).1 = Ok 1 /\
  trace (subscribe (3 + fuel) 0 (user 1) st).2 = trace st /\
  (subscribe_next_only (3 + fuel) (Signal.of_ a) initial).1 = Stop TypeError /\
  (subscribe_next_only (3 + fuel) Signal.empty initial).1 = Stop TypeError.
Proof.
  rewrite (subscribe_next_only_script fuel (Signal.fromArray as_) as_ eq_refl).
  rewrite (subscribe_next_only_script fuel Signal.empty [] eq_refl).
  assert ((subscribe_next_only (3 + fuel) (Signal.of_ a) initial).1 = Stop TypeError) as ->.
  { rewrite (subscribe_next_only_script fuel (Signal.of_ a) (if truthy a then [a] else []));
      [done|].
    unfold Signal.of_. by destruct (truthy a). }
  cbn zeta. cbn [fst snd trace]. change (3 + fuel) with (S (2 + fuel)).
  erewrite subscribe_later; [|reflexivity|done]. done.
Qed.

(** ** map and filter over one source *)

Lemma setup_map f fuel :
  setup (4 + fuel) (Signal.map f) initial
  = (Ok (0, 1, 0), flowing (MMap f 0) (map_observer f) []).
Proof. vm_compute. reflexivity. Qed.

Lemma setup_filter p fuel :
  setup (4 + fuel) (Signal.filter p) initial
  = (Ok (0, 1, 0), flowing (MFilter p 0) (filter_observer p) []).
Proof. vm_compute. reflexivity. Qed.

Lemma map_step f fuel script u m e tr :
  call (4 + fuel) (CbHandler 0 e.1) e.2 (streaming script u m (map_observer f) [] tr)
  = (Ok tt, streaming script u m (map_observer f) []
              (tr ++ [deliver 0 (map_emission f e)])).
Proof. destruct e as [[] v]; vm_compute; reflexivity. Qed.

Lemma map_steps f fuel script u m es : forall tr,
  emits (4 + fuel) 0 es (streaming script u m (map_observer f) [] tr)
  = (Ok tt, streaming script u m (map_observer f) []
              (tr ++ map (deliver 0) (map (map_emission f) es))).
Proof.
  induction es as [|e es IH]; intros tr.
  - simpl. by rewrite app_nil_r.
  - unfold emits. cbn [for_each]. erewrite bind_eq; [|apply map_step].
    fold (emits (4 + fuel) 0 es). rewrite IH. simpl map. by rewrite <-app_assoc.
Qed.


Lemma filter_step p fuel script u m e tr :
  call (4 + fuel) (CbHandler 0 e.1) e.2 (streaming script u m (filter_observer p) [] tr)
  = (Ok tt, streaming script u m (filter_observer p) []
              (tr ++ if passes p e then [deliver 0 e] else [])).
Proof.
  destruct e as [[] v]; try (vm_compute; reflexivity).
  unfold passes. cbn [fst snd].
  change (4 + fuel) with (S (S (2 + fuel))).
  erewrite call_handler; [|reflexivity]. cbn [streaming signals _subscriptions for_each].
  erewrite bind_eq; [reflexivity|].
  erewrite notify_eq; [|reflexivity..].
  change (call (S (2 + fuel)) (CbFilterNext p 1) (handler_argument KNext v))
    with (if p v then call (2 + fuel) (nextHandler 1) v else ret tt).
  destruct (p v); [vm_compute; reflexivity | by rewrite app_nil_r].
Qed.

Lemma filter_steps p fuel script u m es : forall tr,
  emits (4 + fuel) 0 es (streaming script u m (filter_observer p) [] tr)
  = (Ok tt, streaming script u m (filter_observer p) []
              (tr ++ map (deliver 0) (List.filter (passes p) es))).
Proof.
  induction es as [|e es IH]; intros tr.
  - simpl. by rewrite app_nil_r.
  - unfold emits. cbn [for_each]. erewrite bind_eq; [|apply filter_step].
    fold (emits (4 + fuel) 0 es). rewrite IH, <-app_assoc. simpl List.filter.
    by destruct (passes p e).
Qed.


(** ** scan and stateMachine over one source *)

Lemma scan_emission_step f fuel m e acc tr :
  call (4 + fuel) (CbHandler 0 e.1) e.2 (watching m (scan_observer f) acc tr)
  = (Ok tt, watching m (scan_observer f)
              (match e.1 with KNext => f acc e.2 | _ => acc end)
              (tr ++ [deliver 0 (match e.1 with KNext => (KNext, f acc e.2) | _ => e end)])).
Proof. destruct e as [[] v]; vm_compute; reflexivity. Qed.

Lemma scan_emission_steps f fuel m es : forall acc tr, exists acc',
  emits (4 + fuel) 0 es (watching m (scan_observer f) acc tr)
  = (Ok tt, watching m (scan_observer f) acc'
              (tr ++ map (deliver 0) (scan_emissions f acc es))).
Proof.
  induction es as [|e es IH]; intros acc tr.
  - exists acc. simpl. by rewrite app_nil_r.
  - unfold emits. cbn [for_each]. erewrite bind_eq; [|apply scan_emission_step].
    fold (emits (4 + fuel) 0 es).
    destruct (IH (match e.1 with KNext => f acc e.2 | _ => acc end)
                 (tr ++ [deliver 0 (match e.1 with
                                    | KNext => (KNext, f acc e.2)
                                    | _ => e
                                    end)])) as [acc' ->].
    exists acc'. rewrite <-app_assoc. simpl scan_emissions.
    by destruct e as [[] v].
Qed.


(** One value of the source: the transform function is called, and its
    first use of [emit] throws. *)
Lemma stateMachine_transition f fuel m v acc tr :
  call (4 + fuel) (CbHandler 0 KNext) v (watching m (stateMachine_observer f) acc tr)
  = match (f acc v).1 with
    | [] => (Ok tt, watching m (stateMachine_observer f) (f acc v).2 tr)
    | _ :: _ => (Stop TypeError, watching m (stateMachine_observer f) acc tr)
    end.
Proof.
  change (4 + fuel) with (S (3 + fuel)).
  erewrite call_handler; [|reflexivity]. cbn [watching signals _subscriptions for_each].
  change (3 + fuel) with (S (S (1 + fuel))).
  unfold bind at 1. erewrite notify_eq; [|reflexivity..].
  change (call (S (S (1 + fuel))) (CbStateMachineNext f 0 (nextHandler 1))
            (handler_argument KNext v))
    with (a <- read 0 ;;
          for_each (f a v).1 (fun e => call (S (1 + fuel)) (CbEmit (nextHandler 1) e.1) e.2) ;;;
          write 0 (f a v).2).
  erewrite bind_eq; [|reflexivity].
  destruct (f acc v).1 as [|e es]; reflexivity.
Qed.

Lemma stateMachine_transitions f fuel m vs : forall acc tr,
  emits (4 + fuel) 0 (values vs) (watching m (stateMachine_observer f) acc tr)
  = (if quiet f acc vs then Ok tt else Stop TypeError,
     watching m (stateMachine_observer f) (settled f acc vs) tr).
Proof.
  induction vs as [|v vs IH]; intros acc tr; [done|].
  unfold emits, values. simpl map. cbn [for_each fst snd quiet settled].
  unfold bind at 1. rewrite stateMachine_transition.
  destruct (f acc v).1 as [|e es]; [|done].
  apply IH.
Qed.

(** Property X12.  [stateMachine(f, a, s)] calls [f] with its state and
    every value of [s] in turn and takes what [f] returns for its next
    state, as long as [f] emits nothing.  The [emit] that [f] is given is
    the function [nextHandler]: the first call of [f] that uses
    [emit.next], [emit.error] or [emit.complete] throws a [TypeError] and
    leaves the state as it was.  The observer receives nothing, and an
    error or a completion of [s] throws as well, since the observer
    [{...emit, next}] of the state machine has no other callback. *)
Theorem stateMachine_throws_when_f_emits fuel f a vs v :
  (observe (4 + fuel) (Combinator.stateMachine f a) (values vs) initial).1
    = (if quiet f a vs then Ok tt else Stop TypeError) /\
  trace (observe (4 + fuel) (Combinator.stateMachine f a) (values vs) initial).2 = [] /\
  cells (observe (4 + fuel) (Combinator.stateMachine f a) (values vs) initial).2 !! 0
    = Some (settled f a vs) /\
  observe (4 + fuel) (Combinator.stateMachine f a) [(KError, v)] initial
    = (Stop TypeError, watching (MStateMachineC f 0 0) (stateMachine_observer f) a []) /\
  observe (4 + fuel) (Combinator.stateMachine f a) completes initial
    = (Stop TypeError, watching (MStateMachineC f 0 0) (stateMachine_observer f) a []).
Proof.
  split; [|split; [|split; [|split]]]; [| | |vm_compute; reflexivity..];
    unfold observe; rewrite (bind_eq _ _ _ _ _ (setup_stateMachine f a fuel)); cbn [fst];
    by rewrite stateMachine_transitions.
Qed.

(** ** merge and zip of two sources *)

Lemma merge_two_eq fuel events :
  merge_two (4 + fuel) events initial
  = for_each events (fun e =>
      call (4 + fuel) (CbHandler (if decide (e.1 = 0) then 0 else 1) e.2.1) e.2.2)
      (merging 0 []).
Proof. reflexivity. Qed.

Lemma merging_step fuel u e c tr :
  u < 2 ->
  call (4 + fuel) (CbHandler u e.1) e.2 (merging c tr)
  = (Ok tt, merging (match e.1 with KComplete => c + 1 | _ => c end)%Z
              (tr ++ map (deliver 0)
                 (match e.1 with
                  | KComplete =>
                      if decide (Z.of_nat 1 < c + 1)%Z then [(KComplete, VUndef)] else []
                  | _ => [e]
                  end))).
Proof.
  intros Hu. destruct e as [[] v]; cbn [fst snd].
  - destruct u as [|[|]]; [vm_compute; reflexivity..|lia].
  - destruct u as [|[|]]; [vm_compute; reflexivity..|lia].
  - assert (call (4 + fuel) (CbHandler u KComplete) VUndef (merging c tr)
            = (Ok tt, after_complete 0 1 (on_complete 0) c (merging c tr))) as H.
    { apply (join_step fuel _ u 2 0 1 (CbMergeComplete 0 1 2)); [by left| |by repeat eexists|done].
      destruct u as [|[|]]; [by repeat eexists..|lia]. }
    assert (call (4 + fuel) (CbHandler u KComplete) v (merging c tr)
            = call (4 + fuel) (CbHandler u KComplete) VUndef (merging c tr)) as ->.
    { destruct u as [|[|]]; [reflexivity..|lia]. }
    rewrite H. unfold after_complete. case_decide; [done|].
    by rewrite app_nil_r.
Qed.

Lemma merging_steps fuel (events : list (nat * emission)) : forall c tr, exists c',
  for_each events (fun e =>
    call (4 + fuel) (CbHandler (if decide (e.1 = 0) then 0 else 1) e.2.1) e.2.2)
    (merging c tr)
  = (Ok tt, merging c' (tr ++ map (deliver 0) (merge_emissions 1 c (map snd events)))).
Proof.
  induction events as [|[u e] events IH]; intros c tr.
  - exists c. simpl. by rewrite app_nil_r.
  - cbn [for_each fst snd]. erewrite bind_eq.
    2:{ apply merging_step. case_decide; lia. }
    destruct (IH (match e.1 with KComplete => c + 1 | _ => c end)%Z
                 (tr ++ map (deliver 0)
                    (match e.1 with
                     | KComplete =>
                         if decide (Z.of_nat 1 < c + 1)%Z then [(KComplete, VUndef)] else []
                     | _ => [e]
                     end))) as [c' H].
    exists c'. etransitivity; [exact H|].
    rewrite <-app_assoc, <-map_app. simpl map. simpl merge_emissions.
    by destruct e as [[] v].
Qed.


Lemma zip_two_eq fuel events :
  zip_two (4 + fuel) events initial
  = for_each events (fun e =>
      call (4 + fuel) (CbHandler (if decide (e.1 = 0) then 0 else 1) KNext) e.2)
      (zipping []).
Proof. reflexivity. Qed.

Lemma zipping_round fuel a b tr :
  for_each [(0, a); (1, b)] (fun e =>
    call (4 + fuel) (CbHandler (if decide (e.1 = 0) then 0 else 1) KNext) e.2)
    (zipping tr)
  = (Ok tt, zipping (tr ++ [(on_next 0, VArr [a; b])])).
Proof. vm_compute. reflexivity. Qed.

Lemma zipping_rounds fuel pairs : forall tr,
  for_each (rounds pairs) (fun e =>
    call (4 + fuel) (CbHandler (if decide (e.1 = 0) then 0 else 1) KNext) e.2)
    (zipping tr)
  = (Ok tt, zipping (tr ++ map (fun ab => (on_next 0, VArr [ab.1; ab.2])) pairs)).
Proof.
  induction pairs as [|[a b] pairs IH]; intros tr.
  - simpl. by rewrite app_nil_r.
  - change (rounds ((a, b) :: pairs)) with ([(0, a); (1, b)] ++ rounds pairs).
    erewrite for_each_app; [|apply zipping_round].
    rewrite IH. simpl map. by rewrite <-app_assoc.
Qed.


(** ** Two combinators in a row *)

Lemma setup_stages fuel g1 g2 :
  setup (6 + fuel) (fun s => d <- build g1 s ;; build g2 d) initial
  = (Ok (0, 2, 0), flowing2 g1 g2 []).
Proof. destruct g1, g2; vm_compute; reflexivity. Qed.

Lemma stage_next fuel g d v st :
  call (S fuel) (match g with
                 | SMap f => CbMapNext f d
                 | SFilter p => CbFilterNext p d
                 end) v st
  = match through g (KNext, v) with
    | Some e => call fuel (nextHandler d) e.2 st
    | None => (Ok tt, st)
    end.
Proof. destruct g as [f|p]; simpl; [done|]. unfold passes. simpl. by destruct (p v). Qed.

Lemma stages_step fuel g1 g2 e tr :
  call (6 + fuel) (CbHandler 0 e.1) e.2 (flowing2 g1 g2 tr)
  = (Ok tt, flowing2 g1 g2
              (tr ++ match through g1 e ≫= through g2 with
                     | Some e' => [deliver 0 e']
                     | None => []
                     end)).
Proof.
  destruct e as [[] v]; cbn [fst snd].
  - change (6 + fuel) with (S (S (4 + fuel))).
    erewrite call_handler; [|reflexivity]. cbn [flowing2 signals _subscriptions for_each].
    erewrite bind_eq; [reflexivity|].
    erewrite notify_eq; [|reflexivity..]. cbn [handler_argument].
    rewrite stage_next. destruct (through g1 (KNext, v)) as [e1|] eqn:E1; cbv beta iota.
    2:{ simpl. by rewrite app_nil_r. }
    assert (e1.1 = KNext) as Hk.
    { destruct g1 as [f|p]; simpl in E1; [by injection E1 as <-|].
      destruct (passes p (KNext, v)); by simplify_eq. }
    destruct e1 as [k v1]. simpl in Hk. subst k. cbn [snd].
    change (4 + fuel) with (S (S (2 + fuel))).
    erewrite call_handler; [|reflexivity]. cbn [signals _subscriptions for_each].
    erewrite bind_eq; [reflexivity|].
    erewrite notify_eq; [|reflexivity..]. cbn [handler_argument].
    rewrite stage_next. cbn [mbind option_bind].
    destruct (through g2 (KNext, v1)) as [e2|] eqn:E2; cbv beta iota.
    2:{ simpl. by rewrite app_nil_r. }
    assert (e2.1 = KNext) as Hk.
    { destruct g2 as [f|p]; simpl in E2; [by injection E2 as <-|].
      destruct (passes p (KNext, v1)); by simplify_eq. }
    destruct e2 as [k v2]. simpl in Hk. subst k.
    vm_compute. reflexivity.
  - destruct g1, g2; vm_compute; reflexivity.
  - destruct g1, g2; vm_compute; reflexivity.
Qed.

Lemma stages_steps fuel g1 g2 es : forall tr,
  emits (6 + fuel) 0 es (flowing2 g1 g2 tr)
  = (Ok tt, flowing2 g1 g2
              (tr ++ map (deliver 0) (omap (fun e => through g1 e ≫= through g2) es))).
Proof.
  induction es as [|e es IH]; intros tr.
  - simpl. by rewrite app_nil_r.
  - unfold emits. cbn [for_each]. erewrite bind_eq; [|apply stages_step].
    fold (emits (6 + fuel) 0 es). rewrite IH, <-app_assoc. simpl omap.
    by destruct (through g1 e ≫= through g2).
Qed.

(** Property X17.  Two combinators in a row fuse: [s.map(f).map(g)]
    delivers to its observer what [s.map(a => g(f(a)))] delivers, and
    [s.filter(p).filter(q)] what [s.filter(a => p(a) && q(a))] delivers,
    whatever the source emits. *)
Theorem adjacent_stages_fuse fuel f g p q es :
  (observe (6 + fuel) (fun s => d <- Signal.map f s ;; Signal.map g d) es initial).1 = Ok tt /\
  trace (observe (6 + fuel) (fun s => d <- Signal.map f s ;; Signal.map g d) es initial).2
  = trace (observe (4 + fuel) (Signal.map (fun a => g (f a))) es initial).2 /\
  (observe (6 + fuel) (fun s => d <- Signal.filter p s ;; Signal.filter q d) es initial).1
  = Ok tt /\
  trace (observe (6 + fuel) (fun s => d <- Signal.filter p s ;; Signal.filter q d) es initial).2
  = trace (observe (4 + fuel) (Signal.filter (fun a => p a && q a)) es initial).2.
Proof.
  assert (forall g1 g2,
    (observe (6 + fuel) (fun s => d <- build g1 s ;; build g2 d) es initial).1 = Ok tt /\
    trace (observe (6 + fuel) (fun s => d <- build g1 s ;; build g2 d) es initial).2
    = map (deliver 0) (omap (fun e => through g1 e ≫= through g2) es)) as H.
  { intros h1 h2. unfold observe. rewrite (bind_eq _ _ _ _ _ (setup_stages fuel h1 h2)).
    cbn [fst]. by rewrite stages_steps. }
  split; [apply (H (SMap f) (SMap g))|]. split; [|split; [apply (H (SFilter p) (SFilter q))|]].
  - etransitivity; [apply (H (SMap f) (SMap g))|].
    unfold observe. rewrite (bind_eq _ _ _ _ _ (setup_map _ fuel)). cbn [fst].
    unfold flowing. rewrite map_steps. simpl. f_equal. clear H.
    induction es as [|[[] v] es IH]; simpl; by f_equal.
  - etransitivity; [apply (H (SFilter p) (SFilter q))|].
    unfold observe. rewrite (bind_eq _ _ _ _ _ (setup_filter _ fuel)). cbn [fst].
    unfold flowing. rewrite filter_steps. simpl. f_equal. clear H.
    induction es as [|e es IH]; [done|].
    change (omap ?h (e :: es))
      with (match h e with Some y => y :: omap h es | None => omap h es end).
    rewrite IH. cbn [List.filter].
    destruct e as [[] v]; try done.
    unfold through, passes. cbn [fst snd]. destruct (p v); simpl; [|done].
    by destruct (q v).
Qed.

(** ** Timers *)

Lemma run_timers_fire fuel deadline st t :
  earliest (timers st) = Some t -> due t <= deadline ->
  run_timers (S fuel) deadline st
  = (call fuel (action t) (payload t) ;;; run_timers fuel deadline)
      (set_clock (due t) (set_timers (filter (fun t' => tid t' <> tid t)) st)).
Proof.
  intros He Hd. simpl. unfold bind at 1, gets. rewrite He.
  by rewrite decide_True.
Qed.

Lemma run_timers_idle fuel deadline st :
  match earliest (timers st) with
  | Some t => deadline < due t
  | None => True
  end ->
  run_timers (S fuel) deadline st = (Ok tt, set_clock deadline st).
Proof.
  intros H. simpl. unfold bind at 1, gets.
  destruct (earliest (timers st)) as [t|]; [|done].
  rewrite decide_False; [done|lia].
Qed.

Lemma earliest_queued_ge d q : forall first t,
  Forall (fun b => d <= b.1) q -> earliest (queued first q) = Some t -> d <= due t.
Proof.
  induction q as [|de q IH]; intros first t Hq; simpl; [done|].
  apply Forall_cons in Hq as [Hd Hq].
  destruct (earliest (queued (S first) q)) as [t'|] eqn:E.
  - case_decide; intros [= <-]; [by eapply IH|done].
  - by intros [= <-].
Qed.

Lemma earliest_queued first de q :
  Forall (fun b => de.1 <= b.1) q ->
  earliest (queued first (de :: q))
  = Some (Timer first de.1 (CbHandler 1 de.2.1) (handler_argument de.2.1 de.2.2)).
Proof.
  intros Hq. simpl. destruct (earliest (queued (S first) q)) as [t'|] eqn:E; [|done].
  apply (earliest_queued_ge _ _ _ _ Hq) in E. simpl. rewrite decide_False; [done|lia].
Qed.

Lemma filter_queued first q : forall first',
  first < first' ->
  filter (fun t => tid t <> first) (queued first' q) = queued first' q.
Proof.
  induction q as [|de q IH]; intros first' H; simpl; [done|].
  rewrite filter_cons_True by (simpl; lia). f_equal. apply IH. lia.
Qed.

Lemma due_by_all T q : Forall (fun b => b.1 <= T) q -> due_by T q = q /\ due_after T q = [].
Proof.
  induction 1 as [|de q Hd _ [IH1 IH2]]; [done|]. unfold due_by, due_after in *. simpl.
  rewrite IH1, IH2.
  destruct (Nat.leb_spec de.1 T); [|lia]. by destruct (Nat.ltb_spec T de.1); [lia|].
Qed.

Lemma due_by_none T q : Forall (fun b => T < b.1) q -> due_by T q = [] /\ due_after T q = q.
Proof.
  induction 1 as [|de q Hd _ [IH1 IH2]]; [done|]. unfold due_by, due_after in *. simpl.
  rewrite IH1, IH2.
  destruct (Nat.leb_spec de.1 T); [lia|]. by destruct (Nat.ltb_spec T de.1); [|lia].
Qed.

Lemma in_order_same n es : in_order (map (pair n) es).
Proof.
  induction es as [|e es IH]; simpl; [done|]. split; [|done].
  apply Forall_forall. intros b Hb. apply list_elem_of_In, in_map_iff in Hb.
  by destruct Hb as (? & <- & _).
Qed.

Lemma due_after_after T T' q : T <= T' -> due_after T' (due_after T q) = due_after T' q.
Proof.
  intros H. unfold due_after. induction q as [|de q IH]; [done|]. simpl.
  destruct (Nat.ltb_spec T de.1); simpl; rewrite IH; [done|].
  by destruct (Nat.ltb_spec T' de.1); [lia|].
Qed.

Lemma due_by_split T T' q :
  in_order q -> T <= T' -> due_by T q ++ due_by T' (due_after T q) = due_by T' q.
Proof.
  intros Hq H. induction q as [|de q IH]; [done|]. destruct Hq as [Hd Hq].
  destruct (decide (de.1 <= T)) as [Hle|Hgt].
  - unfold due_by, due_after in *. simpl.
    destruct (Nat.leb_spec de.1 T); [|lia]. destruct (Nat.ltb_spec T de.1); [lia|].
    destruct (Nat.leb_spec de.1 T'); [|lia]. simpl. f_equal. by apply IH.
  - destruct (due_by_none T (de :: q)) as [-> ->]; [|done].
    constructor; [lia|]. eapply Forall_impl; [done|]. simpl. lia.
Qed.

Lemma in_order_due_after T q : in_order q -> in_order (due_after T q).
Proof.
  unfold due_after. induction q as [|de q IH]; [done|]. intros [Hd Hq]. simpl.
  destruct (T <? de.1); [|by apply IH]. split; [|by apply IH].
  apply Forall_forall. intros b Hb. apply list_elem_of_In, filter_In in Hb as [Hb _].
  rewrite Forall_forall in Hd. by apply Hd, list_elem_of_In.
Qed.

Lemma length_due T q : length (due_by T q) + length (due_after T q) = length q.
Proof.
  unfold due_by, due_after. induction q as [|de q IH]; [done|]. simpl.
  destruct (Nat.leb_spec de.1 T); destruct (Nat.ltb_spec T de.1); simpl; lia.
Qed.

Lemma due_snoc T q de :
  T < de.1 -> due_by T (q ++ [de]) = due_by T q /\ due_after T (q ++ [de]) = due_after T q ++ [de].
Proof.
  intros H. unfold due_by, due_after. rewrite !List.filter_app. simpl.
  destruct (Nat.leb_spec de.1 T); [lia|]. destruct (Nat.ltb_spec T de.1); [|lia].
  by rewrite app_nil_r.
Qed.

Lemma queued_app q1 : forall first q2,
  queued first (q1 ++ q2) = queued first q1 ++ queued (first + length q1) q2.
Proof.
  induction q1 as [|de q1 IH]; intros first q2; simpl.
  - by rewrite Nat.add_0_r.
  - rewrite IH. do 3 f_equal. lia.
Qed.

Lemma in_order_snoc q de :
  in_order q -> Forall (fun b => b.1 <= de.1) q -> in_order (q ++ [de]).
Proof.
  induction q as [|b q IH]; [done|]. intros [Hb Hq] Hle.
  apply Forall_cons in Hle as [Hle1 Hle]. simpl. split; [|by apply IH].
  apply Forall_app. split; [done|]. by constructor.
Qed.

Section Delay.
Variables (m : mountfn) (u : mountret) (derived : callbacks) (n : nat).

(** When time passes up to [deadline], the timers that are due by then
    fire in the order in which they were set, and the others stay. *)
Lemma run_queued fuel deadline q : forall first cs nt ck tr,
  in_order q ->
  run_timers (5 + (length q + fuel)) deadline
    (delaying m u derived cs (queued first q) nt ck tr)
  = (Ok tt, delaying m u derived cs
              (queued (first + length (due_by deadline q)) (due_after deadline q))
              nt deadline (tr ++ map (deliver 0) (map snd (due_by deadline q)))).
Proof.
  induction q as [|[d e] q IH]; intros first cs nt ck tr Hq.
  - change (5 + (length [] + fuel)) with (S (4 + fuel)).
    rewrite run_timers_idle; [|done]. unfold due_by, due_after. simpl.
    by rewrite app_nil_r.
  - destruct Hq as [Hd Hq].
    change (5 + (length ((d, e) :: q) + fuel)) with (S (5 + (length q + fuel))).
    destruct (decide (d <= deadline)) as [Hle|Hgt].
    + erewrite run_timers_fire; [|by apply earliest_queued|done].
      cbn [tid due action payload fst snd]. unfold set_timers, set_clock, delaying.
      cbn [signals subscriptions cells timers next_timer clock trace queued fst snd].
      rewrite filter_cons_False by (simpl; lia).
      rewrite filter_queued by lia.
      fold (delaying m u derived cs (queued (S first) q) nt d tr).
      erewrite bind_eq.
      2:{ change (5 + (length q + fuel)) with (2 + (3 + (length q + fuel))).
          eapply (call_heard _ 1 e.1 _ _ _ [tag_of e.1 0]); [reflexivity|].
          constructor; [|constructor]. eexists _, _.
          split; [reflexivity|]. split; [reflexivity|]. by destruct e as [[] ?]. }
      etransitivity; [apply (IH (S first) cs nt d)|]; [done|].
      unfold due_by, due_after. cbn [List.filter fst].
      destruct (Nat.leb_spec d deadline); [|lia].
      destruct (Nat.ltb_spec deadline d); [lia|].
      unfold delaying. cbn [trace map length snd]. cbv beta. rewrite <-app_assoc.
      do 2 f_equal; [f_equal; lia|]. do 2 f_equal. unfold deliver.
      by destruct e as [[] ?].
    + rewrite run_timers_idle.
      2:{ cbn [delaying timers]. rewrite earliest_queued by done. simpl. lia. }
      destruct (due_by_none deadline ((d, e) :: q)) as [-> ->].
      { constructor; [simpl; lia|]. eapply Forall_impl; [done|]. simpl. lia. }
      simpl. by rewrite app_nil_r, Nat.add_0_r.
Qed.

(** The timers of a delay fire in the order in which they were set. *)
Lemma run_pending fuel deadline es first cs nt ck tr :
  n <= deadline ->
  run_timers (5 + (length es + fuel)) deadline
    (delaying m u derived cs (pending n first es) nt ck tr)
  = (Ok tt, delaying m u derived cs [] nt deadline (tr ++ map (deliver 0) es)).
Proof.
  intros Hn. unfold pending.
  replace (length es) with (length (map (pair n) es)) by apply length_map.
  rewrite run_queued by apply in_order_same.
  destruct (due_by_all deadline (map (pair n) es)) as [-> ->].
  { apply Forall_forall. intros b Hb. apply list_elem_of_In, in_map_iff in Hb.
    by destruct Hb as (? & <- & _). }
  by rewrite (map_map (pair n) snd), map_id.
Qed.

(** Before they are due, they do not fire. *)
Lemma run_pending_early fuel deadline es first cs nt ck tr :
  deadline < n ->
  run_timers (S fuel) deadline (delaying m u derived cs (pending n first es) nt ck tr)
  = (Ok tt, delaying m u derived cs (pending n first es) nt deadline tr).
Proof.
  intros Hn. rewrite run_timers_idle; [done|].
  cbn [delaying timers]. destruct es as [|e es]; [done|].
  unfold pending. cbn [map]. rewrite earliest_queued; [done|].
  apply Forall_forall. intros b Hb. apply list_elem_of_In, in_map_iff in Hb.
  by destruct Hb as (? & <- & _).
Qed.

Hypothesis emit_step : forall fuel e cs ts nt ck tr, exists cs',
  call (4 + fuel) (CbHandler 0 e.1) e.2 (delaying m u derived cs ts nt ck tr)
  = (Ok tt, if is_error e
            then delaying m u derived cs' ts nt ck (tr ++ [deliver 0 e])
            else delaying m u derived cs' (ts ++ queued nt [(ck + n, e)]) (S nt) ck tr).

(** At time 0 the source emits [es]: the errors are delivered, a timer is
    set for every value and every completion. *)
Lemma emit_steps fuel es : forall cs ts nt tr, exists cs',
  emits (4 + fuel) 0 es (delaying m u derived cs ts nt 0 tr)
  = (Ok tt, delaying m u derived cs' (ts ++ pending n nt (postponed es))
              (nt + length (postponed es)) 0 (tr ++ map (deliver 0) (errors es))).
Proof.
  induction es as [|e es IH]; intros cs ts nt tr.
  - exists cs. simpl. by rewrite !app_nil_r, Nat.add_0_r.
  - unfold emits. cbn [for_each]. destruct (emit_step fuel e cs ts nt 0 tr) as [cs1 H1].
    erewrite bind_eq; [|exact H1]. fold (emits (4 + fuel) 0 es).
    unfold errors, postponed. cbn [List.filter].
    destruct (is_error e); cbn [negb].
    + destruct (IH cs1 ts nt (tr ++ [deliver 0 e])) as [cs' H]. exists cs'.
      rewrite H. by rewrite <-app_assoc.
    + destruct (IH cs1 (ts ++ pending n nt [e]) (S nt) tr) as [cs' H]. exists cs'.
      etransitivity; [exact H|].
      unfold pending. cbn [map queued length]. rewrite <-app_assoc. simpl app.
      unfold delaying. do 2 f_equal. unfold postponed. lia.
Qed.

Lemma observe_later_run F mk es wait :
  5 + length es <= F ->
  setup F mk initial = (Ok (0, 1, 0), delaying m u derived [] [] 1 0 []) ->
  (observe_later F mk es wait initial).1 = Ok tt /\
  trace (observe_later F mk es wait initial).2
  = map (deliver 0) (errors es ++ if decide (n <= wait) then postponed es else []).
Proof.
  intros HF Hs.
  destruct (emit_steps (F - 4) es [] [] 1 []) as [cs' He].
  replace (4 + (F - 4)) with F in He by lia.
  assert (observe F mk es initial
          = (Ok tt, delaying m u derived cs' (pending n 1 (postponed es))
                      (1 + length (postponed es)) 0 (map (deliver 0) (errors es)))) as Ho.
  { unfold observe. rewrite (bind_eq _ _ _ _ _ Hs). cbn [fst]. exact He. }
  unfold observe_later. rewrite (bind_eq _ _ _ _ _ Ho).
  assert (length (postponed es) <= length es) as Hlen by apply List.filter_length_le.
  set (st := delaying _ _ _ _ _ _ _ _).
  assert (elapse F wait st = run_timers F wait st) as -> by reflexivity.
  unfold st. case_decide as Hw.
  - replace F with (5 + (length (postponed es) + (F - 5 - length (postponed es)))) by lia.
    rewrite run_pending by done. by rewrite map_app.
  - replace F with (S (F - 1)) by lia.
    rewrite run_pending_early by lia. by rewrite app_nil_r.
Qed.

(** Time passes for a delay: the deliveries that fall due are made, in
    order. *)
Lemma elapse_delayed F gap cs ck sched :
  in_order sched -> 5 + length sched <= F ->
  elapse F gap (delayed_at m u derived cs ck sched)
  = (Ok tt, delayed_at m u derived cs (ck + gap) sched).
Proof.
  intros Hq HF.
  assert (elapse F gap (delayed_at m u derived cs ck sched)
          = run_timers F (ck + gap) (delayed_at m u derived cs ck sched)) as -> by reflexivity.
  pose proof (length_due ck sched) as Hlen.
  replace F with (5 + (length (due_after ck sched) + (F - 5 - length (due_after ck sched))))
    by lia.
  unfold delayed_at. rewrite run_queued by (by apply in_order_due_after).
  rewrite due_after_after by lia.
  pose proof (due_by_split ck (ck + gap) sched Hq (Nat.le_add_r _ _)) as Hsplit.
  rewrite <-!map_app, Hsplit. do 3 f_equal.
  rewrite <-Hsplit, length_app. lia.
Qed.

(** The source emits a value or a completion at the time [ck]: its
    delivery is due [n] milliseconds later. *)
Lemma emit_delayed fuel e cs ck sched :
  0 < n -> is_error e = false ->
  Forall (fun de => de.1 <= ck + n) sched -> exists cs',
  call (4 + fuel) (CbHandler 0 e.1) e.2 (delayed_at m u derived cs ck sched)
  = (Ok tt, delayed_at m u derived cs' ck (sched ++ [(ck + n, e)])).
Proof.
  intros Hn He Hle. unfold delayed_at.
  destruct (emit_step fuel e cs (queued (1 + length (due_by ck sched)) (due_after ck sched))
              (1 + length sched) ck (map (deliver 0) (map snd (due_by ck sched))))
    as [cs' H].
  exists cs'. rewrite H, He.
  destruct (due_snoc ck sched (ck + n, e)) as [-> ->]; [simpl; lia|].
  rewrite queued_app, length_app. pose proof (length_due ck sched) as Hlen.
  unfold delaying. do 3 f_equal; [|simpl; lia]. f_equal. lia.
Qed.

Lemma play_delayed F timeline :
  0 < n -> Forall (fun ge => is_error ge.2 = false) timeline ->
  forall sched cs ck,
  in_order sched -> Forall (fun de => de.1 <= ck + n) sched ->
  5 + (length sched + length timeline) <= F -> exists cs',
  play F 0 timeline (delayed_at m u derived cs ck sched)
  = (Ok tt, delayed_at m u derived cs' (ck + span timeline)
              (sched ++ schedule n ck timeline)).
Proof.
  intros Hn. induction 1 as [|[gap e] timeline He _ IH]; intros sched cs ck Hq Hle HF.
  - exists cs. simpl. by rewrite Nat.add_0_r, app_nil_r.
  - cbn [play fst snd]. simpl in He, HF.
    erewrite bind_eq; [|apply elapse_delayed; [done|lia]].
    destruct (emit_delayed (F - 4) e cs (ck + gap) sched Hn He) as [cs1 H1].
    { eapply Forall_impl; [done|]. simpl. lia. }
    replace (4 + (F - 4)) with F in H1 by lia.
    erewrite bind_eq; [|exact H1].
    destruct (IH (sched ++ [(ck + gap + n, e)]) cs1 (ck + gap)) as [cs' H].
    + apply in_order_snoc; [done|]. eapply Forall_impl; [done|]. simpl. lia.
    + apply Forall_app. split; [|by constructor].
      eapply Forall_impl; [done|]. simpl. lia.
    + rewrite length_app. simpl. lia.
    + exists cs'. rewrite H. simpl. rewrite <-app_assoc. simpl.
      by replace (ck + (gap + span timeline)) with (ck + gap + span timeline) by lia.
Qed.

Lemma observe_timeline_run F mk timeline wait :
  0 < n -> Forall (fun ge => is_error ge.2 = false) timeline ->
  5 + length timeline <= F ->
  setup F mk initial = (Ok (0, 1, 0), delaying m u derived [] [] 1 0 []) ->
  (observe_timeline F mk timeline wait initial).1 = Ok tt /\
  trace (observe_timeline F mk timeline wait initial).2
  = map (deliver 0) (map snd (due_by (span timeline + wait) (schedule n 0 timeline))).
Proof.
  intros Hn He HF Hs.
  destruct (play_delayed F timeline Hn He [] [] 0) as [cs' Hp]; [done|done|simpl; lia|].
  unfold observe_timeline. rewrite (bind_eq _ _ _ _ _ Hs). cbn [fst].
  rewrite (bind_eq _ _ _ _ _ Hp). simpl app.
  assert (in_order (schedule n 0 timeline)) as Hq.
  { clear. generalize 0 at 1. induction timeline as [|ge tl IH]; intros now; [done|].
    simpl. split; [|apply IH].
    assert (forall k, now + ge.1 <= k ->
              Forall (fun b => now + ge.1 + n <= b.1) (schedule n k tl)) as H.
    { clear. induction tl as [|ge' tl IH]; intros k Hk; simpl; [done|].
      constructor; [simpl; lia|]. apply IH. lia. }
    by apply H. }
  assert (length (schedule n 0 timeline) = length timeline) as Hlen.
  { clear. generalize 0. induction timeline as [|ge tl IH]; intros now; [done|].
    simpl. by rewrite IH. }
  rewrite elapse_delayed by (done || lia). done.
Qed.
End Delay.

(** ** delay over one source *)

Lemma setup_delay fuel n :
  setup (4 + fuel) (Signal.delay n) initial
  = (Ok (0, 1, 0), delaying (MDelayP n 0) (RSubscription 1) (delay_observer n) [] [] 1 0 []).
Proof. vm_compute. reflexivity. Qed.

Lemma delay_emit m u n fuel e cs ts nt ck tr : exists cs',
  call (4 + fuel) (CbHandler 0 e.1) e.2 (delaying m u (delay_observer n) cs ts nt ck tr)
  = (Ok tt, if is_error e
            then delaying m u (delay_observer n) cs' ts nt ck (tr ++ [deliver 0 e])
            else delaying m u (delay_observer n) cs' (ts ++ queued nt [(ck + n, e)])
                   (S nt) ck tr).
Proof. exists cs. destruct e as [[] v]; vm_compute; reflexivity. Qed.





(** ** A combinator that is subscribed to again *)

Lemma remount_map_eq fuel f es :
  remount (4 + fuel) (Signal.map f) [] es initial
  = emits (4 + fuel) 0 es (resubscribed f []).
Proof. reflexivity. Qed.

Lemma resubscribed_step fuel f e tr :
  call (4 + fuel) (CbHandler 0 e.1) e.2 (resubscribed f tr)
  = (Ok tt, resubscribed f
              ((tr ++ [deliver 1 (map_emission f e)]) ++ [deliver 1 (map_emission f e)])).
Proof. destruct e as [[] v]; vm_compute; reflexivity. Qed.

Lemma resubscribed_steps fuel f es : forall tr,
  emits (4 + fuel) 0 es (resubscribed f tr)
  = (Ok tt, resubscribed f
              (tr ++ flat_map (fun e => [deliver 1 (map_emission f e);
                                         deliver 1 (map_emission f e)]) es)).
Proof.
  induction es as [|e es IH]; intros tr.
  - simpl. by rewrite app_nil_r.
  - unfold emits. cbn [for_each]. erewrite bind_eq; [|apply resubscribed_step].
    fold (emits (4 + fuel) 0 es). rewrite IH. cbn [flat_map].
    by rewrite <-!app_assoc.
Qed.

(** Property X20.  An observer subscribes to [s.map(f)] and unsubscribes,
    and a second observer subscribes.  The subscription that the first
    mount of the map took on [s] is still there beside the one of the
    second mount: the second observer receives every emission of [s]
    twice. *)
Theorem resubscribed_map_delivers_twice fuel f es :
  (remount (4 + fuel) (Signal.map f) [] es initial).1 = Ok tt /\
  trace (remount (4 + fuel) (Signal.map f) [] es initial).2
  = flat_map (fun e => [deliver 1 (map_emission f e);
                        deliver 1 (map_emission f e)]) es /\
  registry (remount (4 + fuel) (Signal.map f) [] es initial).2 0 = [1; 3].
Proof. by rewrite remount_map_eq, resubscribed_steps. Qed.

(** ** Combinators over an array *)

Lemma subscribe_first_script fuel st s sg script a st' :
  signals st !! s = Some sg -> _mount sg = MUser script false ->
  _subscriptions sg = [] ->
  emits fuel s script (set_signals (alter count_mount s) (registered st s a))
  = (Ok tt, st') ->
  subscribe (S fuel) s a st
  = (Ok (length (subscriptions st)), set_signals (alter (with_unmount RUndefined) s) st').
Proof.
  intros Hsg Hm He Hrun. rewrite (subscribe_first _ _ _ _ _ Hsg He), Hm.
  change (run_mount _ _ s (MUser script false))
    with (emits fuel s script ;;; ret RUndefined).
  by erewrite bind_eq.
Qed.

Section OverArray.
Variables (script : list emission) (m : mountfn) (a : arguments) (derived : callbacks).
Hypothesis normalize_a : normalize a = Some derived.
Hypothesis mount_m : forall sub inv,
  run_mount sub inv 1 m = (s <- sub 0 a ;; ret (RSubscription s)).

(** The first subscriber of a combinator over a source that emits
    [script] while it is mounted: the combinator is registered on the
    source before the script runs, and the observer on the combinator
    before that. *)
Lemma subscribe_over fuel cs cs' out :
  emits (4 + fuel) 0 script (streaming script RUndefined m derived cs [])
  = (Ok tt, streaming script RUndefined m derived cs' out) ->
  subscribe (6 + fuel) 1 (user 0) (unmounted_over script m cs)
  = (Ok 0, streaming script (RSubscription 1) m derived cs' out).
Proof.
  intros Hrun. change (6 + fuel) with (S (S (4 + fuel))).
  erewrite subscribe_first; [|reflexivity..]. cbn [_mount unmounted_over].
  rewrite mount_m. erewrite bind_eq.
  2:{ eapply subscribe_first_script; [reflexivity..|].
      unfold registered, set_signals, set_subscriptions. simpl.
      rewrite normalize_a. exact Hrun. }
  reflexivity.
Qed.
End OverArray.

Lemma fold_values_over f fuel script u m vs : forall acc tr,
  emits (4 + fuel) 0 (values vs) (streaming script u m (fold_observer f) [acc] tr)
  = (Ok tt, streaming script u m (fold_observer f) [fold_left f vs acc] tr).
Proof.
  induction vs as [|v vs IH]; intros acc tr; [done|].
  unfold emits, values. simpl map. cbn [for_each].
  erewrite bind_eq; [|vm_compute; reflexivity]. apply IH.
Qed.

Lemma fold_completes_over f fuel script u m acc :
  emits (4 + fuel) 0 completes (streaming script u m (fold_observer f) [acc] [])
  = (Ok tt, streaming script u m (fold_observer f) [acc]
              [(on_next 0, acc); (on_complete 0, VUndef)]).
Proof. vm_compute. reflexivity. Qed.


(** ** Any number of combinators in a row *)

Lemma sole_same st st' s o : same_wiring st st' -> sole st s o -> sole st' s o.
Proof.
  intros [Hs Hp] (sg & id & sub & Hsg & Hid & Hsub & Ho).
  destruct (Hs _ _ Hsg) as (sg' & Hsg' & Hreg).
  exists sg', id, sub. split; [done|]. split; [congruence|]. split; [|done].
  by eapply prefix_lookup_Some.
Qed.

Lemma wired_same st st' gs : forall b o,
  same_wiring st st' -> wired st b gs o -> wired st' b gs o.
Proof.
  induction gs as [|g gs IH]; intros b o Hs; simpl.
  - by apply sole_same.
  - intros [H1 H2]. split; [by eapply sole_same | by apply IH].
Qed.

Lemma wired_snoc st gs g o : forall b,
  wired st b (gs ++ [g]) o
  <-> wired st b gs (stage_observer g (S (b + length gs))) /\ sole st (S (b + length gs)) o.
Proof.
  induction gs as [|h gs IH]; intros b; simpl.
  - by rewrite Nat.add_0_r.
  - rewrite IH. replace (S b + length gs) with (b + S (length gs)) by lia. tauto.
Qed.

Lemma through_other g e : e.1 <> KNext -> through g e = Some e.
Proof. destruct e as [[] v], g; done. Qed.

Lemma through_next g v :
  match through g (KNext, v) with Some e => e.1 = KNext | None => True end.
Proof. destruct g as [f|p]; simpl; [done|]. unfold passes. simpl. by destruct (p v). Qed.

Lemma through_all_other gs e : e.1 <> KNext -> through_all gs e = Some e.
Proof.
  intros He. induction gs as [|g gs IH]; simpl; [done|]. by rewrite through_other.
Qed.

(** An emission of the lowest signal goes through the stages and reaches
    the observer, or is held back by one of them. *)
Lemma call_wired gs : forall b fuel st e k,
  wired st b gs (user_observer k) ->
  call (2 + 2 * length gs + fuel) (CbHandler b e.1) e.2 st
  = (Ok tt, record (match through_all gs e with
                    | Some e' => [deliver k e']
                    | None => []
                    end) st).
Proof.
  induction gs as [|g gs IH]; intros b fuel st e k Hw.
  - destruct Hw as (sg & id & sub & Hsg & Hid & Hsub & Ho). simpl.
    eapply (call_heard _ _ _ _ _ _ [tag_of e.1 k]); [done|]. rewrite Hid.
    constructor; [|constructor]. exists sub, (user_observer k). by destruct e as [[] ?].
  - destruct Hw as [(sg & id & sub & Hsg & Hid & Hsub & Ho) Hw].
    replace (2 + 2 * length (g :: gs) + fuel) with (S (S (2 + 2 * length gs + fuel)))
      by (simpl; lia).
    rewrite (call_handler _ _ _ _ _ _ Hsg), Hid. cbn [for_each].
    assert (forall cb, member (stage_observer g (S b)) e.1 = Some cb ->
              (notify (call (S (2 + 2 * length gs + fuel))) e.1 e.2 id ;;; ret tt) st
              = (call (S (2 + 2 * length gs + fuel)) cb (handler_argument e.1 e.2) ;;; ret tt) st)
      as Hn.
    { intros cb Hcb. unfold bind. by erewrite notify_eq. }
    destruct e as [[] v]; cbn [fst snd through_all] in Hn |- *.
    + erewrite Hn; [|reflexivity]. cbn [handler_argument]. unfold bind.
      rewrite stage_next. pose proof (through_next g v) as Hk.
      destruct (through g (KNext, v)) as [[k1 v1]|]; simpl in Hk; cbn [mbind option_bind].
      * subst k1. cbn [snd].
        pose proof (IH (S b) fuel st (KNext, v1) k Hw) as H. cbn [fst snd] in H.
        by rewrite H.
      * by rewrite record_nil.
    + erewrite Hn; [|reflexivity]. cbn [handler_argument]. unfold bind.
      replace (S (2 + 2 * length gs + fuel)) with (2 + 2 * length gs + S fuel) by lia.
      pose proof (IH (S b) (S fuel) st (KError, v) k Hw) as H. cbn [fst snd] in H.
      rewrite H. by rewrite through_other.
    + erewrite Hn; [|reflexivity]. cbn [handler_argument]. unfold bind.
      replace (S (2 + 2 * length gs + fuel)) with (2 + 2 * length gs + S fuel) by lia.
      pose proof (IH (S b) (S fuel) st (KComplete, VUndef) k Hw) as H.
      cbn [fst snd] in H. rewrite H.
      rewrite through_other by done. cbn [mbind option_bind].
      by rewrite !through_all_other.
Qed.

Lemma emits_wired gs fuel k es : forall st,
  wired st 0 gs (user_observer k) ->
  emits (2 + 2 * length gs + fuel) 0 es st
  = (Ok tt, record (map (deliver k) (omap (through_all gs) es)) st).
Proof.
  induction es as [|e es IH]; intros st Hw.
  - simpl. by rewrite record_nil.
  - unfold emits. cbn [for_each]. erewrite bind_eq; [|by apply call_wired].
    fold (emits (2 + 2 * length gs + fuel) 0 es). rewrite IH.
    2:{ eapply wired_same; [|done]. split; [|done]. intros x sg Hx. by exists sg. }
    rewrite record_app. cbn [omap list_omap].
    by destruct (through_all gs e).
Qed.

Lemma run_mount_stage sub inv self g this :
  run_mount sub inv self (stage_mount g this)
  = (s <- sub this (AFunction (match g with
                               | SMap f => CbMapNext f self
                               | SFilter p => CbFilterNext p self
                               end) (Some (errorHandler self)) (Some (completeHandler self))) ;;
     ret (RSubscription s)).
Proof. by destruct g. Qed.

Lemma chained_snoc st gs g :
  chained st (gs ++ [g]) ->
  chained st gs /\
  signals st !! S (length gs) = Some (Signal (stage_mount g (length gs)) RUndefined [] 0 0).
Proof.
  intros [H0 H]. split; [split; [done|]|].
  - intros i h Hi. apply H. by apply lookup_app_l_Some.
  - apply H. by rewrite lookup_app_r, Nat.sub_diag.
Qed.

(** Subscribing to the last of the stages mounts them all, from the last
    down to the source. *)
Lemma subscribe_chain fuel gs : forall st a o,
  normalize a = Some o -> chained st gs ->
  exists st',
    subscribe (1 + length gs + fuel) (length gs) a st
    = (Ok (length (subscriptions st)), st') /\
    wired st' 0 gs o /\
    (forall x, length gs < x -> signals st' !! x = signals st !! x) /\
    subscriptions st `prefix_of` subscriptions st' /\
    trace st' = trace st.
Proof.
  induction gs as [|g gs IH] using rev_ind; intros st a o Ha Hc.
  - destruct Hc as [H0 _]. exists (subscribed_source st 0 a).
    split; [by apply subscribe_source|]. split; [|split; [|split]].
    + eexists _, _, _. unfold subscribed_source, registered. simpl.
      rewrite !list_lookup_alter_eq, H0. split; [reflexivity|]. split; [reflexivity|].
      rewrite lookup_app_r, Nat.sub_diag by done. by split.
    + intros x Hx. unfold subscribed_source, registered. simpl in *.
      rewrite !list_lookup_alter_ne by lia. done.
    + by apply prefix_app_r.
    + done.
  - apply chained_snoc in Hc as [Hc Hsg].
    rewrite length_app. cbn [length].
    replace (1 + (length gs + 1) + fuel) with (S (1 + length gs + fuel)) by lia.
    replace (length gs + 1) with (S (length gs)) by lia.
    rewrite (subscribe_first _ _ _ _ _ Hsg eq_refl). cbn [_mount].
    rewrite run_mount_stage.
    set (st3 := set_signals (alter count_mount (S (length gs)))
                  (registered st (S (length gs)) a)).
    destruct (IH st3 (AFunction (match g with
                                 | SMap f => CbMapNext f (S (length gs))
                                 | SFilter p => CbFilterNext p (S (length gs))
                                 end) (Some (errorHandler (S (length gs))))
                                (Some (completeHandler (S (length gs)))))
                 (stage_observer g (S (length gs))) eq_refl)
      as (st4 & Hrun & Hw & Hframe & Hpre & Htr).
    { destruct Hc as [H0 Hi]. split.
      - unfold st3, registered. simpl. by rewrite !list_lookup_alter_ne.
      - intros i h Hh. unfold st3, registered. simpl.
        apply lookup_lt_Some in Hh as Hlt. rewrite !list_lookup_alter_ne by lia.
        by apply Hi. }
    rewrite (bind_eq _ _ _ _ _ Hrun). unfold ret.
    eexists. split; [reflexivity|]. split; [|split; [|split]].
    + apply wired_snoc. simpl. split.
      * eapply wired_same; [|done]. split; [|done]. intros x sg Hx. simpl.
        destruct (decide (x = S (length gs))) as [->|Hne].
        -- rewrite list_lookup_alter_eq, Hx. by eexists.
        -- rewrite list_lookup_alter_ne by done. by eexists.
      * eexists _, (length (subscriptions st)),
          (Subscription (normalize a) (S (length gs)) false). simpl.
        rewrite list_lookup_alter_eq, Hframe by lia. unfold st3, registered. simpl.
        rewrite !list_lookup_alter_eq, Hsg. split; [reflexivity|]. split; [reflexivity|].
        split; [|exact Ha].
        eapply prefix_lookup_Some; [|done]. unfold st3, registered. simpl.
        by rewrite lookup_app_r, Nat.sub_diag.
    + intros x Hx. simpl. rewrite list_lookup_alter_ne, Hframe by lia.
      unfold st3, registered. simpl. by rewrite !list_lookup_alter_ne by lia.
    + simpl. etransitivity; [|done]. unfold st3, registered. simpl. by apply prefix_app_r.
    + simpl. by rewrite Htr.
Qed.

Lemma chain_eq gs : forall b st,
  length (signals st) = S b ->
  chain gs b st
  = (Ok (b + length gs),
     set_signals (fun l => l ++ imap (fun i g => Signal (stage_mount g (b + i))
                                                  RUndefined [] 0 0) gs) st).
Proof.
  induction gs as [|g gs IH]; intros b st Hb; simpl.
  - unfold ret, set_signals. rewrite app_nil_r, Nat.add_0_r. by destruct st.
  - assert (build g b st
            = (Ok (S b), set_signals (fun l => l ++ [Signal (stage_mount g b)
                                                      RUndefined [] 0 0]) st)) as Hg.
    { destruct g; unfold build, Signal.map, Signal.filter, Signal.new, bind, gets,
        modify, ret; simpl; by rewrite Hb. }
    rewrite (bind_eq _ _ _ _ _ Hg), IH.
    2:{ simpl. rewrite length_app. simpl. lia. }
    f_equal; [f_equal; lia|]. unfold set_signals. simpl. rewrite <-app_assoc. simpl.
    rewrite Nat.add_0_r. do 3 f_equal. apply imap_ext. intros i h _. simpl.
    do 2 f_equal. lia.
Qed.

Lemma chained_built gs :
  chained (set_signals (fun l => l ++ imap (fun i g => Signal (stage_mount g (0 + i))
                                                       RUndefined [] 0 0) gs)
             (source initial).2) gs.
Proof.
  split; [done|]. intros i g Hg. simpl. by rewrite list_lookup_imap, Hg.
Qed.

